(** * CustomOllamaTranslatorServer: a shallow embedding of the translation core

    The Python services under [app/services] and [app/utils] are embedded as
    Rocq functions.  Python strings are lists of code points, Python dicts
    whose iteration order the code relies on are association lists with
    unique keys, the process-wide singletons are explicit state records, and
    code that can raise returns a [result]. *)

From Stdlib Require Import NArith ZArith QArith List Bool String Ascii Lia.
From stdpp Require Import base option list gmap strings.
Import ListNotations.

Open Scope N_scope.
Open Scope list_scope.

(** ** Python strings *)

(** A Python [str] is a sequence of Unicode code points. *)
Abbreviation str := (list N).

(** An ASCII literal as a [str]. *)
Definition lit (s : string) : str :=
  List.map (fun a => N.of_nat (nat_of_ascii a)) (list_ascii_of_string s).

(** [len(s)], as a Python integer. *)
Definition len {A} (l : list A) : Z := Z.of_nat (List.length l).

(** [str.isspace] on one code point; the same table serves [\s] in [re] and
    the no-argument [str.split] and [str.strip]. *)
Definition isspace (c : N) : bool :=
  ((9 <=? c) && (c <=? 13)) || ((28 <=? c) && (c <=? 32)) ||
  (c =? 133) || (c =? 160) || (c =? 5760) ||
  ((8192 <=? c) && (c <=? 8202)) ||
  (c =? 8232) || (c =? 8233) || (c =? 8239) || (c =? 8287) || (c =? 12288).

Definition SPACE : N := 32.

Fixpoint lstrip (s : str) : str :=
  match s with
  | c :: s' => if isspace c then lstrip s' else s
  | [] => []
  end.

Definition rstrip (s : str) : str := rev (lstrip (rev s)).

(** [s.strip()] *)
Definition strip (s : str) : str := rstrip (lstrip s).

(** [s.split()]: the maximal runs of non-whitespace code points.  [cur] is
    the word being read, most recent code point first. *)
Fixpoint split_aux (cur : str) (s : str) : list str :=
  match s with
  | [] => match cur with [] => [] | _ => [rev cur] end
  | c :: s' =>
      if isspace c
      then match cur with [] => split_aux [] s' | _ => rev cur :: split_aux [] s' end
      else split_aux (c :: cur) s'
  end.

Definition split (s : str) : list str := split_aux [] s.

(** [x in s] for a one-code-point [x]. *)
Definition contains_cp (c : N) (s : str) : bool := existsb (N.eqb c) s.

Definition str_eqb (a b : str) : bool := bool_decide (a = b).

(** Truthiness of a Python string. *)
Definition truthy (s : str) : bool := match s with [] => false | _ => true end.

(** ASCII classes, as written in the patterns of the source. *)
Definition is_ascii_upper (c : N) : bool := (65 <=? c) && (c <=? 90).
Definition is_ascii_lower (c : N) : bool := (97 <=? c) && (c <=? 122).
Definition is_ascii_letter (c : N) : bool := is_ascii_upper c || is_ascii_lower c.
Definition is_ascii_digit (c : N) : bool := (48 <=? c) && (c <=? 57).
Definition is_oct_digit (c : N) : bool := (48 <=? c) && (c <=? 55).
Definition ascii_lower (c : N) : N := if is_ascii_upper c then c + 32 else c.

(** ** The Unicode character database

    What the interpreter's Unicode tables decide is kept abstract: the
    predicates behind [\w], [\d], [str.isalpha] and [str.isdigit], the case
    mapping of [str.lower] and the case-insensitive comparison of [re].  The
    laws are the ones the code relies on: digits and case on ASCII, and a
    case mapping that is idempotent and leaves the outer whitespace alone. *)
Class UnicodeDB := {
  isalnum_cp : N -> bool;
  isdecimal_cp : N -> bool;
  isdigit_cp : N -> bool;
  isalpha_cp : N -> bool;
  py_lower : str -> str;
  re_ci_eq : N -> N -> bool;
  isdigit_cp_ascii : forall c : N, c < 128 -> isdigit_cp c = is_ascii_digit c;
  py_lower_ascii : forall s : str,
    Forall (fun c => c < 128) s -> py_lower s = List.map ascii_lower s;
  py_lower_idem : forall s : str, py_lower (py_lower s) = py_lower s;
  py_lower_strip : forall s : str, py_lower (strip s) = strip (py_lower s)
}.

(** ** Insertion-ordered dictionaries

    A Python [dict] iterates in insertion order, and assigning to a key that
    is present keeps its position. *)
Module OD.
Section OD.
Context {V : Type}.

Definition t := list (str * V).

Fixpoint get (k : str) (d : t) : option V :=
  match d with
  | [] => None
  | (k', v) :: d' => if str_eqb k k' then Some v else get k d'
  end.

Definition mem (k : str) (d : t) : bool :=
  match get k d with Some _ => true | None => false end.

(** [d[k] = v] *)
Fixpoint set (k : str) (v : V) (d : t) : t :=
  match d with
  | [] => [(k, v)]
  | (k', v') :: d' => if str_eqb k k' then (k, v) :: d' else (k', v') :: set k v d'
  end.

(** [d.pop(k, None)] *)
Fixpoint pop (k : str) (d : t) : t :=
  match d with
  | [] => []
  | (k', v') :: d' => if str_eqb k k' then d' else (k', v') :: pop k d'
  end.

Definition keys (d : t) : list str := List.map fst d.
Definition items (d : t) : list (str * V) := d.
End OD.
Arguments t : clear implicits.
End OD.

(** ** Results of code that can raise *)
Inductive exn :=
  | KeyError
  | TemplateError
  | HTTPException (status_code : Z)
  | BackendError (msg : str)
  | PlainException (msg : string).

Inductive result (A : Type) :=
  | Ok (a : A)
  | Raise (e : exn).
Arguments Ok {A} a.
Arguments Raise {A} e.

Definition rbind {A B} (r : result A) (k : A -> result B) : result B :=
  match r with Ok a => k a | Raise e => Raise e end.

(** ** app/utils/language_utils.py *)
Module LanguageUtils.
Section LanguageUtils.
Context `{UnicodeDB}.

Definition code_mapping : OD.t str :=
  [ (lit "korean", lit "ko"); (lit "english", lit "en");
    (lit "japanese", lit "ja"); (lit "chinese", lit "zh");
    (lit "spanish", lit "es"); (lit "french", lit "fr");
    (lit "german", lit "de"); (lit "russian", lit "ru");
    (lit "portuguese", lit "pt"); (lit "arabic", lit "ar");
    (lit "kor", lit "ko"); (lit "eng", lit "en"); (lit "jpn", lit "ja");
    (lit "chn", lit "zh"); (lit "esp", lit "es"); (lit "fra", lit "fr");
    (lit "deu", lit "de"); (lit "rus", lit "ru"); (lit "por", lit "pt");
    (lit "ara", lit "ar") ].

(** [s.isalpha()] *)
Definition isalpha (s : str) : bool := truthy s && forallb isalpha_cp s.

Definition normalize_language_code (lang_code : str) : str :=
  if negb (truthy lang_code) then []
  else
    let normalized := strip (py_lower lang_code) in
    match OD.get normalized code_mapping with
    | Some code => code
    | None =>
        if (len normalized =? 2)%Z && isalpha normalized then normalized
        else normalized
    end.
Definition language_names : OD.t str :=
  [ (lit "en", lit "English"); (lit "ko", lit "Korean"); (lit "ja", lit "Japanese");
    (lit "zh", lit "Chinese"); (lit "es", lit "Spanish"); (lit "fr", lit "French");
    (lit "de", lit "German"); (lit "ru", lit "Russian"); (lit "pt", lit "Portuguese");
    (lit "ar", lit "Arabic"); (lit "hi", lit "Hindi"); (lit "it", lit "Italian");
    (lit "nl", lit "Dutch"); (lit "pl", lit "Polish"); (lit "tr", lit "Turkish");
    (lit "vi", lit "Vietnamese"); (lit "th", lit "Thai") ].

Definition get_language_name (lang_code : str) : str :=
  let normalized_code := normalize_language_code lang_code in
  default (lit "Unknown") (OD.get normalized_code language_names).
End LanguageUtils.
End LanguageUtils.

(** ** The [re] patterns of the source

    Each pattern the services use is embedded as the function on code points
    it denotes. *)
Module Re.
Section Re.
Context `{UnicodeDB}.

(** [\w]: alphanumeric or the underscore. *)
Definition is_word (c : N) : bool := isalnum_cp c || (c =? 95).

(** [re.sub(r'[^...]', ' ', text)] for a negated class given by [keep]. *)
Definition sub_outside (keep : N -> bool) (text : str) : str :=
  List.map (fun c => if keep c then c else SPACE) text.

(** [re.sub(r'\s+', ' ', text)]; [in_run] tells that the previous code
    point was whitespace. *)
Fixpoint collapse_ws (in_run : bool) (text : str) : str :=
  match text with
  | [] => []
  | c :: text' =>
      if isspace c
      then (if in_run then collapse_ws true text'
            else SPACE :: collapse_ws true text')
      else c :: collapse_ws false text'
  end.

(** [re.match(r'^[a-zA-Z]+$', w)]: [$] also matches before one final
    newline. *)
Definition match_ascii_letters (w : str) : bool :=
  let body := match rev w with 10 :: r => rev r | _ => w end in
  truthy body && forallb is_ascii_letter body.

(** [re.match(r'^[\d\W]+$', text)] *)
Definition match_digits_nonword (text : str) : bool :=
  truthy text && forallb (fun c => isdecimal_cp c || negb (is_word c)) text.

(** *** [r'\b' + re.escape(source) + r'\b'] under [re.IGNORECASE] *)

Definition is_word_opt (o : option N) : bool :=
  match o with Some c => is_word c | None => false end.

(** [\b] between [prev] and [next]; the ends of the string count as
    non-word. *)
Definition boundary (prev next : option N) : bool :=
  xorb (is_word_opt prev) (is_word_opt next).

(** The escaped literal [source] read case-insensitively at the head of
    [s]: the text it matched (most recent first in [acc]) and the rest. *)
Fixpoint literal_ci (source s acc : str) : option (str * str) :=
  match source, s with
  | [], _ => Some (rev acc, s)
  | p :: source', c :: s' =>
      if re_ci_eq p c then literal_ci source' s' (c :: acc) else None
  | _ :: _, [] => None
  end.

(** The whole pattern at the head of [s], [prev] being the code point
    before it. *)
Definition match_here (source : str) (prev : option N) (s : str) : option str :=
  if boundary prev (head s) then
    match literal_ci source s [] with
    | Some (matched, rest) =>
        let before_end := match last matched with Some c => Some c | None => prev end in
        if boundary before_end (head rest) then Some matched else None
    | None => None
    end
  else None.

(** [re.search(pattern, s, re.IGNORECASE)] as a truth value. *)
Fixpoint search_word (source : str) (prev : option N) (s : str) : bool :=
  match match_here source prev s with
  | Some _ => true
  | None =>
      match s with
      | [] => false
      | c :: s' => search_word source (Some c) s'
      end
  end.

(** *** Replacement templates of [re.sub]

    A replacement string holding a backslash is parsed as a template; the
    pattern has no group, so only group 0 can be referenced. *)
Inductive piece :=
  | PLit (s : str)
  | PWhole.

Definition escape_char (c : N) : option N :=
  if c =? 97 then Some 7          (* \a *)
  else if c =? 98 then Some 8     (* \b *)
  else if c =? 102 then Some 12   (* \f *)
  else if c =? 110 then Some 10   (* \n *)
  else if c =? 114 then Some 13   (* \r *)
  else if c =? 116 then Some 9    (* \t *)
  else if c =? 118 then Some 11   (* \v *)
  else if c =? 92 then Some 92    (* \\ *)
  else None.

Definition oct (c : N) : N := c - 48.

(** The name of [\g<name>] up to [>]: the name and what follows. *)
Fixpoint until_gt (s acc : str) : option (str * str) :=
  match s with
  | [] => None
  | c :: s' => if c =? 62 then Some (rev acc, s') else until_gt s' (c :: acc)
  end.

(** [fuel] bounds the code points still to read. *)
Fixpoint parse_template (fuel : nat) (s : str) : option (list piece) :=
  match fuel with
  | O => match s with [] => Some [] | _ => None end
  | S fuel' =>
      match s with
      | [] => Some []
      | 92 :: [] => None
      | 92 :: c :: s' =>
          if c =? 103 then
            match s' with
            | 60 :: s'' =>
                match until_gt s'' [] with
                | Some (name, rest) =>
                    if truthy name && forallb (N.eqb 48) name
                    then cons PWhole <$> parse_template fuel' rest
                    else None
                | None => None
                end
            | _ => None
            end
          else if c =? 48 then
            match s' with
            | d1 :: d2 :: rest =>
                if is_oct_digit d1 && is_oct_digit d2
                then cons (PLit [N.land (oct d1 * 8 + oct d2) 255])
                       <$> parse_template fuel' rest
                else if is_oct_digit d1
                then cons (PLit [oct d1]) <$> parse_template fuel' (d2 :: rest)
                else cons (PLit [0]) <$> parse_template fuel' s'
            | [d1] =>
                if is_oct_digit d1 then Some [PLit [oct d1]]
                else cons (PLit [0]) <$> parse_template fuel' s'
            | [] => Some [PLit [0]]
            end
          else if is_ascii_digit c then
            match s' with
            | d1 :: d2 :: rest =>
                if is_oct_digit c && is_oct_digit d1 && is_oct_digit d2
                then
                  let v := oct c * 64 + oct d1 * 8 + oct d2 in
                  if 255 <? v then None
                  else cons (PLit [v]) <$> parse_template fuel' rest
                else None
            | _ => None
            end
          else
            match escape_char c with
            | Some e => cons (PLit [e]) <$> parse_template fuel' s'
            | None =>
                if is_ascii_letter c then None
                else cons (PLit [92; c]) <$> parse_template fuel' s'
            end
      | c :: s' => cons (PLit [c]) <$> parse_template fuel' s'
      end
  end.

Definition expand (tpl : list piece) (matched : str) : str :=
  List.concat (List.map (fun p => match p with PLit s => s | PWhole => matched end) tpl).

(** The replacement for one match; [None] is the [re.error] (or, for an
    unknown group name, the [IndexError]) of the template parser. *)
Definition compile_repl (repl : str) : option (str -> str) :=
  if contains_cp 92 repl
  then expand <$> parse_template (List.length repl) repl
  else Some (fun _ => repl).

(** Left to right, non-overlapping: [skip] counts the code points of the
    current match still to be passed over.  The callers pass a [source] of
    more than two code points, so no match is empty. *)
Fixpoint sub_aux (source : str) (repl : str -> str)
    (prev : option N) (skip : nat) (s : str) : str :=
  match s with
  | [] => []
  | c :: s' =>
      match skip with
      | S k => sub_aux source repl (Some c) k s'
      | O =>
          match match_here source prev s with
          | Some matched =>
              repl matched ++ sub_aux source repl (Some c) (List.length matched - 1) s'
          | None => c :: sub_aux source repl (Some c) O s'
          end
      end
  end.

(** [re.sub(pattern, repl, s, flags=re.IGNORECASE)] *)
Definition sub_word (source repl s : str) : result str :=
  match compile_repl repl with
  | Some f => Ok (sub_aux source f None O s)
  | None => Raise TemplateError
  end.
End Re.
End Re.

(** ** app/services/dictionary_manager.py *)
Module DictionaryManager.

(** category -> (source term -> translation), both in insertion order *)
Abbreviation dictionary := (OD.t (OD.t str)).

(** A file of the dictionary directory.  [content = None] is a file that
    [json.load] rejects; a stored dictionary is read back as written. *)
Record file := {
  content : option dictionary;
  readable : bool;
  writable : bool
}.

(** The singleton [DICTIONARY]: the cache [_dictionaries] and the
    directory [_base_path]; [can_create] tells whether a new file can be
    created there. *)
Record state := {
  _dictionaries : gmap str dictionary;
  files : gmap str file;
  can_create : bool
}.

Definition _priority_categories : list str :=
  [ lit "character_names"; lit "place_names"; lit "custom_terms";
    lit "ui"; lit "general" ].

Definition MAX_DIRECT_REPLACEMENT_LENGTH : Z := 30.

(** [f"{lang_code}_dictionary.json"] under [_base_path] *)
Definition filepath (lang_code : str) : str := lang_code ++ lit "_dictionary.json".

(** [os.path.exists] *)
Definition path_exists (path : str) (st : state) : bool :=
  bool_decide (is_Some (files st !! path)).

(** [open(path, 'w')] followed by [json.dump]: the new state, or [None]
    when it raises. *)
Definition write_file (path : str) (d : dictionary) (st : state) : option state :=
  match files st !! path with
  | Some f =>
      if writable f
      then Some {| _dictionaries := _dictionaries st;
                   files := <[path := {| content := Some d; readable := readable f;
                                         writable := true |}]> (files st);
                   can_create := can_create st |}
      else None
  | None =>
      if can_create st
      then Some {| _dictionaries := _dictionaries st;
                   files := <[path := {| content := Some d; readable := true;
                                         writable := true |}]> (files st);
                   can_create := can_create st |}
      else None
  end.

(** [open(path, 'r')] followed by [json.load]; [None] when it raises. *)
Definition read_file (path : str) (st : state) : option dictionary :=
  match files st !! path with
  | Some f => if readable f then content f else None
  | None => None
  end.

Definition _create_default_dictionary (lang_code : str) (st : state) : state :=
  let base_dict : dictionary :=
    [ (lit "character_names", []); (lit "place_names", []);
      (lit "custom_terms", []); (lit "ui", []) ] in
  match write_file (filepath lang_code) base_dict st with
  | Some st' => st'
  | None => st
  end.

Definition cache_dictionary (lang_code : str) (d : dictionary) (st : state) : state :=
  {| _dictionaries := <[lang_code := d]> (_dictionaries st);
     files := files st; can_create := can_create st |}.

Definition get_dictionary (lang_code : str) (st : state) : result dictionary * state :=
  match _dictionaries st !! lang_code with
  | Some d => (Ok d, st)
  | None =>
      let path := filepath lang_code in
      let st := if negb (path_exists path st)
                then _create_default_dictionary lang_code st else st in
      match read_file path st with
      | Some translations => (Ok translations, cache_dictionary lang_code translations st)
      | None =>
          (* except: return self._dictionaries[lang_code] *)
          match _dictionaries st !! lang_code with
          | Some d => (Ok d, st)
          | None => (Raise KeyError, st)
          end
      end
  end.

Definition reload_dictionary (lang_code : str) (st : state) : result bool * state :=
  let st := {| _dictionaries := delete lang_code (_dictionaries st);
               files := files st; can_create := can_create st |} in
  match get_dictionary lang_code st with
  | (Ok d, st') => (Ok (match d with [] => false | _ => true end), st')
  | (Raise e, st') => (Raise e, st')
  end.

(** [initialize_dictionaries] over [settings.SUPPORTED_LANGUAGES]; the
    directory [_base_path] is there. *)
Fixpoint initialize_dictionaries (supported_languages : list str) (st : state)
    : result unit * state :=
  match supported_languages with
  | [] => (Ok tt, st)
  | lang :: rest =>
      if path_exists (filepath lang) st then
        match get_dictionary lang st with
        | (Ok _, st') => initialize_dictionaries rest st'
        | (Raise e, st') => (Raise e, st')
        end
      else initialize_dictionaries rest st
  end.

Section Lookup.
Context `{UnicodeDB}.

(** The first entry whose lowered source equals [text_lower]. *)
Definition find_lower (text_lower : str) (entries : OD.t str) : option str :=
  snd <$> List.find (fun '(source, _) => str_eqb (py_lower source) text_lower) entries.

(** Lines 147-156: the exact and the case-insensitive match. *)
Fixpoint exact_match (text : str) (d : dictionary) (categories : list str) : option str :=
  match categories with
  | [] => None
  | category :: categories' =>
      match OD.get category d with
      | Some entries =>
          match OD.get text entries with
          | Some translation => Some translation
          | None =>
              match find_lower (py_lower text) entries with
              | Some translation => Some translation
              | None => exact_match text d categories'
              end
          end
      | None => exact_match text d categories'
      end
  end.

(** Lines 166-172 for one category: [(result, replacements_made)]. *)
Fixpoint substitute_entries (entries : OD.t str) (acc : str * bool) : result (str * bool) :=
  match entries with
  | [] => Ok acc
  | (source, translation) :: entries' =>
      if (len source >? 2)%Z && Re.search_word source None (fst acc)
      then rbind (Re.sub_word source translation (fst acc))
                 (fun r => substitute_entries entries' (r, true))
      else substitute_entries entries' acc
  end.

(** Lines 164-172 *)
Fixpoint substitute (d : dictionary) (categories : list str) (acc : str * bool)
    : result (str * bool) :=
  match categories with
  | [] => Ok acc
  | category :: categories' =>
      match OD.get category d with
      | Some entries =>
          rbind (substitute_entries entries acc) (substitute d categories')
      | None => substitute d categories' acc
      end
  end.

(** [s.isdigit()] *)
Definition isdigit (s : str) : bool := truthy s && forallb isdigit_cp s.

(** Lines 180-190 *)
Definition contains_untranslated (original_words result_words : list str) : bool :=
  existsb (fun orig_word =>
    if (len orig_word <=? 1)%Z || isdigit orig_word then false
    else Re.match_ascii_letters orig_word &&
         existsb (fun res_word => str_eqb (py_lower res_word) (py_lower orig_word))
                 result_words)
    original_words.

(** Lines 158-198: the partial match on a loaded dictionary. *)
Definition partial_match (text : str) (d : dictionary) : result (option str) :=
  let original_words := split text in
  rbind (substitute d _priority_categories (text, false))
    (fun '(res, replacements_made) =>
       if replacements_made then
         if contains_untranslated original_words (split res)
         then Ok None else Ok (Some res)
       else Ok None).

Definition get_translation (text target_lang : str) (st : state)
    : result (option str) * state :=
  if negb (truthy text) || negb (truthy (strip text)) then (Ok (Some text), st)
  else if (len text >? MAX_DIRECT_REPLACEMENT_LENGTH)%Z && contains_cp SPACE text
  then (Ok None, st)
  else
    match get_dictionary target_lang st with
    | (Raise e, st') => (Raise e, st')
    | (Ok d, st') =>
        match d with
        | [] => (Ok None, st')
        | _ =>
            match exact_match text d _priority_categories with
            | Some translation => (Ok (Some translation), st')
            | None => (partial_match text d, st')
            end
        end
    end.

(** Lines 285-298: the entries that are not stored. *)
Definition rejected (text translation : str) (confidence : Q) : bool :=
  negb (truthy text) || negb (truthy (strip text)) ||
  negb (truthy translation) || negb (truthy (strip translation)) ||
  negb (Qle_bool (1 # 2) confidence) ||
  (len text >? MAX_DIRECT_REPLACEMENT_LENGTH)%Z ||
  Re.match_digits_nonword text.

(** Lines 301-311: the update of [_dictionaries] in place. *)
Definition upsert (text translation target_lang category : str) (st : state) : state :=
  let d := default [] (_dictionaries st !! target_lang) in
  let entries := default [] (OD.get category d) in
  cache_dictionary target_lang (OD.set category (OD.set text translation entries) d) st.

Definition add_translation (text translation target_lang category : str)
    (confidence : Q) (st : state) : bool * state :=
  if rejected text translation confidence then (false, st)
  else
    let st := upsert text translation target_lang category st in
    let d := default [] (_dictionaries st !! target_lang) in
    match write_file (filepath target_lang) d st with
    | Some st' => (true, st')
    | None => (false, st)
    end.

Record WordMapping := {
    word : str;
    translation : str;
    category : option str
}.

Fixpoint process_word_mapping (word_mapping : list WordMapping) (target_lang : str)
    (st : state) : state :=
  match word_mapping with
  | [] => st
  | item :: rest =>
      let category :=
        match category item with
        | Some c => if str_eqb (strip c) [] then lit "custom_terms" else c
        | None => lit "custom_terms"
        end in
      let st := snd (add_translation (strip (word item)) (strip (translation item))
                       target_lang (strip category) (9 # 10) st) in
      process_word_mapping rest target_lang st
  end.
(** [a in b] for strings *)
Fixpoint is_prefix (a b : str) : bool :=
  match a, b with
  | [], _ => true
  | x :: a', y :: b' => (x =? y) && is_prefix a' b'
  | _ :: _, [] => false
  end.

Fixpoint is_infix (a b : str) : bool :=
  is_prefix a b || match b with [] => false | _ :: b' => is_infix a b' end.

(** Lines 223-233 *)
Definition references_of (text : str) (d : dictionary) : list (str * str) :=
  List.concat (List.map (fun category =>
    match OD.get category d with
    | Some entries =>
        List.filter (fun '(source, _) =>
          (len source >? 2)%Z &&
          (Re.search_word source None text ||
           is_infix ([SPACE] ++ source ++ [SPACE]) ([SPACE] ++ text ++ [SPACE])))
          entries
    | None => []
    end) _priority_categories).

Definition get_prompt_references (text target_lang : str) (st : state)
    : result (list (str * str)) * state :=
  if negb (truthy text) || negb (truthy (strip text)) then (Ok [], st)
  else
    match get_dictionary target_lang st with
    | (Raise e, st') => (Raise e, st')
    | (Ok d, st') => (Ok (references_of text d), st')
    end.
End Lookup.

Definition empty : state :=
  {| _dictionaries := ∅; files := ∅; can_create := true |}.
End DictionaryManager.

(** ** Replies of the model and the values they leave behind *)

(** The value of the ["score"] key of a parsed reply: missing, a value
    [int()] converts, or one it rejects with the given diagnostic. *)
Inductive score_field :=
  | ScoreAbsent
  | ScoreInt (z : Z)
  | ScoreBad (error_msg : str).

(** The dictionary [parse_llm_json_response] returns, as far as the services
    read it.  [p_translation] is [.get("translation", "")], empty for a
    missing or empty entry; [p_other_keys] counts the keys that are none of
    a non-empty ["translation"], ["word_mapping"], ["score"] and
    ["feedback"], such as the ["error"] and ["original_content"] of a reply
    that could not be parsed. *)
Record payload := {
  p_translation : str;
  p_word_mapping : option (list DictionaryManager.WordMapping);
  p_score : score_field;
  p_feedback : option str;
  p_other_keys : nat
}.

(** [len(d)] of a parsed reply [d]: the number of its keys. *)
Definition dict_len (p : payload) : Z :=
  (if truthy (p_translation p) then 1 else 0) +
  (match p_word_mapping p with Some _ => 1 | None => 0 end) +
  (match p_score p with ScoreAbsent => 0 | _ => 1 end) +
  (match p_feedback p with Some _ => 1 | None => 0 end) +
  Z.of_nat (p_other_keys p).

(** What a variable annotated [translated_text: str] holds at run time: a
    string, or the parsed reply itself, which lines 210-211 of
    [translate_service.py] put in the place of a missing translation. *)
Inductive pyval :=
  | VStr (s : str)
  | VDict (p : payload).

(** [len(v)] *)
Definition vlen (v : pyval) : Z :=
  match v with VStr s => len s | VDict p => dict_len p end.

(** Truthiness: a string or a dictionary that is not empty. *)
Definition vtruthy (v : pyval) : bool :=
  match v with VStr s => truthy s | VDict p => (0 <? dict_len p)%Z end.

(** [s == v] for a string [s]: no dictionary equals a string. *)
Definition str_is (s : str) (v : pyval) : bool :=
  match v with VStr t => str_eqb s t | VDict _ => false end.

(** ** app/services/translate_history.py *)
Module TranslationHistory.

Record record := {
  source_text : str;
  translated_text : pyval;
  quality_score : option Z;
  feedback : option str;
  timestamp : str
}.

(** The singleton: [_history] and the history file.  [disk = None] is a
    file never written; [disk_writable] tells whether opening it for
    writing succeeds. *)
Record state := {
  _history : gmap str (list record);
  disk : option (gmap str (list record));
  disk_writable : bool
}.

Definition _max_history_per_lang_pair : Z := 10.

(** [f"{source_lang}:{target_lang}"] *)
Definition pair_key (source_lang target_lang : str) : str :=
  source_lang ++ [58] ++ target_lang.

(** [l[-n:]] for a positive [n]. *)
Definition last_n {A} (n : Z) (l : list A) : list A :=
  drop (List.length l - Z.to_nat n)%nat l.

(** The write is wrapped in [try]: a failure is printed and dropped. *)
Definition _save_history (st : state) : state :=
  if disk_writable st
  then {| _history := _history st; disk := Some (_history st);
          disk_writable := disk_writable st |}
  else st.

(** [now] is the value of [datetime.now().isoformat()] at the call. *)
Definition add_history (source_lang target_lang src : str) (translated : pyval)
    (score : option Z) (fb : option str) (now : str) (st : state) : state :=
  let key := pair_key source_lang target_lang in
  let items := default [] (_history st !! key) in
  let items := List.filter (fun item => negb (str_eqb (source_text item) src)) items in
  let items := items ++ [ {| source_text := src; translated_text := translated;
                             quality_score := score; feedback := fb;
                             timestamp := now |} ] in
  let items :=
    if (len items >? _max_history_per_lang_pair)%Z
    then last_n _max_history_per_lang_pair items else items in
  _save_history {| _history := <[key := items]> (_history st); disk := disk st;
                   disk_writable := disk_writable st |}.

Definition get_history (source_lang target_lang : str) (st : state) : list record :=
  default [] (_history st !! pair_key source_lang target_lang).

(** [initialize]: [disk = None] is a history file that does not exist;
    [loadable] tells whether opening and [json.load] succeed. *)
Definition initialize (loadable : bool) (st : state) : state :=
  match disk st with
  | Some h =>
      {| _history := if loadable then h else ∅; disk := disk st;
         disk_writable := disk_writable st |}
  | None => st
  end.

Definition empty : state :=
  {| _history := ∅; disk := None; disk_writable := true |}.
End TranslationHistory.

(** ** The process: settings, singletons and the model backend *)

(** The fields of [app/settings.py] read by the services. *)
Record Settings := {
  ENABLE_CACHE : bool;
  ENABLE_DICTIONARY : bool;
  ENABLE_EVALUATION : bool;
  QUALITY_THRESHOLD : Z;
  MAX_IMPROVEMENT_ATTEMPTS : Z;
  MIN_TEXT_LENGTH_FOR_EVALUATION : Z;
  MAX_TEXT_LENGTH_FOR_EVALUATION : Z
}.

(** What one [ollamac.chat] call does. *)
Inductive reply :=
  | Content (p : payload)
  | RequestError (msg : str)
  | ChatException (msg : str).

(** What [TranslationLogger] and [print] receive.  [LogTranslation] carries
    the value that was translated to and what the caller's f-string appends
    to it: nothing, [" (cache)"] or [" (dictionary)"]. *)
Inductive event :=
  | LogTranslation (source_text : str) (translated_text : pyval) (mark : str)
  | LogEvaluation (translated_text : pyval) (score : Z)
  | LogError (kind : string)
  | PrintAttempt (attempt : Z).

Record evaluation := {
  ev_score : Z;
  ev_feedback : str;
  ev_translated_text : pyval
}.

(** The state of the process.  [backend n] is the outcome of the [n]-th chat
    call and [deadline n] tells whether an [asyncio.wait_for] around it
    expires first; [log] collects what [TranslationLogger] and [print]
    receive, most recent first.  The messages sent are not part of the
    model: a run has one sequence of replies, whatever they depend on, so
    two runs that send different prompts are runs in different worlds. *)
Record world := {
  backend : nat -> reply;
  deadline : nat -> bool;
  chat_calls : nat;
  translation_cache : OD.t pyval;
  DICTIONARY : DictionaryManager.state;
  HISTORY : TranslationHistory.state;
  _evaluation_history : gmap str (list evaluation);
  log : list event
}.

Definition set_chat_calls (n : nat) (w : world) : world :=
  {| backend := backend w; deadline := deadline w; chat_calls := n;
   translation_cache := translation_cache w; DICTIONARY := DICTIONARY w;
   HISTORY := HISTORY w; _evaluation_history := _evaluation_history w;
   log := log w |}.

Definition set_cache (c : OD.t pyval) (w : world) : world :=
  {| backend := backend w; deadline := deadline w; chat_calls := chat_calls w;
   translation_cache := c; DICTIONARY := DICTIONARY w;
   HISTORY := HISTORY w; _evaluation_history := _evaluation_history w;
   log := log w |}.

Definition set_dictionary (d : DictionaryManager.state) (w : world) : world :=
  {| backend := backend w; deadline := deadline w; chat_calls := chat_calls w;
   translation_cache := translation_cache w; DICTIONARY := d;
   HISTORY := HISTORY w; _evaluation_history := _evaluation_history w;
   log := log w |}.

Definition set_history (h : TranslationHistory.state) (w : world) : world :=
  {| backend := backend w; deadline := deadline w; chat_calls := chat_calls w;
   translation_cache := translation_cache w; DICTIONARY := DICTIONARY w;
   HISTORY := h; _evaluation_history := _evaluation_history w;
   log := log w |}.

Definition set_evaluation_history (h : gmap str (list evaluation)) (w : world) : world :=
  {| backend := backend w; deadline := deadline w; chat_calls := chat_calls w;
   translation_cache := translation_cache w; DICTIONARY := DICTIONARY w;
   HISTORY := HISTORY w; _evaluation_history := h;
   log := log w |}.

Definition emit (e : event) (w : world) : world :=
  {| backend := backend w; deadline := deadline w; chat_calls := chat_calls w;
   translation_cache := translation_cache w; DICTIONARY := DICTIONARY w;
   HISTORY := HISTORY w; _evaluation_history := _evaluation_history w;
   log := e :: log w |}.

(** [await ollamac.chat(...)]; [guarded] tells that the caller runs under
    [asyncio.wait_for], and [None] is its cancellation. *)
Definition chat (guarded : bool) (w : world) : option reply * world :=
  let n := chat_calls w in
  let w' := set_chat_calls (S n) w in
  if guarded && deadline w n then (None, w') else (Some (backend w n), w').

(** ** app/services/translate_evaluator.py

    Both coroutines are awaited under [asyncio.wait_for] by their only
    caller; [None] is an exception that reaches that caller: the
    [TimeoutError] of [wait_for] or, in [improve_translation], the
    [TypeError] described there.  The prompts they build do not reach the
    result and are left out. *)
Module TranslationEvaluator.
Section TranslationEvaluator.
Context `{UnicodeDB}.

Definition allowed_special_chars : str := lit ".,!?".

Definition clean_special_chars (text : str) : str :=
  if negb (truthy text) then []
  else
    let keep c := Re.is_word c || isspace c || contains_cp c allowed_special_chars in
    strip (Re.collapse_ws false (Re.sub_outside keep text)).

Definition get_evaluation_history (source_text : str) (w : world) : list evaluation :=
  default [] (_evaluation_history w !! source_text).

Definition store_evaluation_history (source_text : str) (e : evaluation) (w : world) : world :=
  let l := get_evaluation_history source_text w in
  let l := if (len l >=? 5)%Z then tail l else l in
  set_evaluation_history (<[source_text := l ++ [e]]> (_evaluation_history w)) w.

Definition too_short_feedback : str :=
  [47588; 50864; 32; 51687; 51008; 32; 53581; 49828; 53944; 47196; 32;
   54217; 44032; 44032; 32; 51228; 54620; 46120].
Definition same_text_feedback : str :=
  [48264; 50669; 51060; 32; 54596; 50836; 32; 50630; 45716; 32; 53581; 49828; 53944].
Definition no_feedback : str := [54217; 44032; 32; 51221; 48372; 32; 50630; 51020].
Definition process_error_prefix : str :=
  [54217; 44032; 32; 54532; 47196; 49464; 49828; 32; 50724; 47448; 58; 32].

Definition evaluate_translation (source_text : str) (translated_text : pyval) (w : world)
    : option (Z * str) * world :=
  if (len source_text <? 3)%Z || (vlen translated_text <? 3)%Z
  then (Some (95%Z, too_short_feedback), w)
  else if str_is source_text translated_text
  then (Some (100%Z, same_text_feedback), w)
  else
    match chat true w with
    | (None, w) => (None, w)
    | (Some (Content p), w) =>
        match p_score p with
        | ScoreBad error_msg => (Some (70%Z, error_msg), emit (LogError "json_parse_error") w)
        | field =>
            let score := match field with ScoreInt z => z | _ => 0%Z end in
            let feedback := default no_feedback (p_feedback p) in
            let score := Z.max 0 (Z.min score 100) in
            (Some (score, feedback),
             store_evaluation_history source_text
               {| ev_score := score; ev_feedback := feedback;
                  ev_translated_text := translated_text |} w)
        end
    | (Some (RequestError msg), w) | (Some (ChatException msg), w) =>
        (Some (70%Z, process_error_prefix ++ msg), emit (LogError "evaluation_error") w)
    end.

(** Lines 209-211 clean the three texts before the [try]: for a previous
    translation that is no string [re.sub] raises [TypeError] there, before
    any backend call.  What is returned is a string: the previous
    translation or the one of the reply. *)
Definition improve_translation (source_text : str) (previous_translation : pyval)
    (feedback : str)
    (word_mapping : option (list DictionaryManager.WordMapping)) (w : world)
    : option (str * option (list DictionaryManager.WordMapping)) * world :=
  match previous_translation with
  | VDict _ => (None, w)
  | VStr previous_translation =>
      match chat true w with
      | (None, w) => (None, w)
      | (Some (Content p), w) =>
          if negb (truthy (p_translation p)) then (Some (previous_translation, None), w)
          else (Some (p_translation p, p_word_mapping p), w)
      | (Some (RequestError _), w) | (Some (ChatException _), w) =>
          (Some (previous_translation, word_mapping), emit (LogError "improvement_error") w)
      end
  end.
End TranslationEvaluator.
End TranslationEvaluator.

(** ** app/services/translate_service.py *)
Module TranslateService.
Section TranslateService.
Context `{UnicodeDB}.
Variable settings : Settings.

Definition allowed_special_chars : str := [33; 63; 46; 44; 39; 34].

Definition clean_special_chars (text : str) : str :=
  if negb (truthy text) then []
  else
    let keep c := Re.is_word c || isspace c || contains_cp c allowed_special_chars in
    strip (Re.collapse_ws false (Re.sub_outside keep text)).

(** The local variables of the improvement loop (lines 327-331). *)
Record loop_state := {
  current_translation : pyval;
  best_score : Z;
  best_translation : pyval;
  best_feedback : str;
  feedback : str;
  word_mapping : option (list DictionaryManager.WordMapping)
}.

(** Lines 333-399.  [fuel] is [MAX_IMPROVEMENT_ATTEMPTS - attempts]: every
    turn of the [while] that does not [break] ends in [attempts += 1]. *)
Fixpoint improvement_loop (text : str) (fuel : nat) (attempts : Z)
    (ls : loop_state) (w : world) : loop_state * world :=
  match fuel with
  | O => (ls, w)
  | S fuel' =>
      let w := emit (PrintAttempt (attempts + 1)) w in
      match TranslationEvaluator.improve_translation text (current_translation ls)
              (feedback ls) (word_mapping ls) w with
      | (None, w) => improvement_loop text fuel' (attempts + 1) ls w
      | (Some (improved_translation, wm), w) =>
          let ls := {| current_translation := current_translation ls;
                       best_score := best_score ls;
                       best_translation := best_translation ls;
                       best_feedback := best_feedback ls;
                       feedback := feedback ls; word_mapping := wm |} in
          if str_is improved_translation (current_translation ls) then (ls, w)
          else
            let improved_translation := VStr improved_translation in
            match TranslationEvaluator.evaluate_translation text improved_translation w with
            | (None, w) => improvement_loop text fuel' (attempts + 1) ls w
            | (Some (improved_score, improved_feedback), w) =>
                let w := emit (LogEvaluation improved_translation improved_score) w in
                let better := (improved_score >? best_score ls)%Z in
                let ls := {| current_translation := current_translation ls;
                             best_score := if better then improved_score else best_score ls;
                             best_translation :=
                               if better then improved_translation else best_translation ls;
                             best_feedback :=
                               if better then improved_feedback else best_feedback ls;
                             feedback := feedback ls; word_mapping := word_mapping ls |} in
                if (improved_score >=? QUALITY_THRESHOLD settings)%Z then (ls, w)
                else
                  improvement_loop text fuel' (attempts + 1)
                    {| current_translation := improved_translation;
                       best_score := best_score ls;
                       best_translation := best_translation ls;
                       best_feedback := best_feedback ls;
                       feedback := improved_feedback;
                       word_mapping := word_mapping ls |} w
            end
      end
  end.

Definition translate_evaluator (text : str) (translated_text : pyval)
    (wm : option (list DictionaryManager.WordMapping)) (w : world)
    : (pyval * option (list DictionaryManager.WordMapping)) * world :=
  match TranslationEvaluator.evaluate_translation text translated_text w with
  | (None, w) => ((translated_text, wm), emit (LogError "evaluation_timeout") w)
  | (Some (quality_score, fb), w) =>
      let w := emit (LogEvaluation translated_text quality_score) w in
      if (quality_score <? QUALITY_THRESHOLD settings)%Z then
        let '(ls, w) :=
          improvement_loop text (Z.to_nat (MAX_IMPROVEMENT_ATTEMPTS settings)) 0%Z
            {| current_translation := translated_text; best_score := quality_score;
               best_translation := translated_text; best_feedback := fb;
               feedback := fb; word_mapping := wm |} w in
        ((best_translation ls, word_mapping ls), w)
      else ((translated_text, wm), w)
  end.

(** [f"{source_lang}:{target_lang}:{text}"] *)
Definition cache_key (source_lang target_lang text : str) : str :=
  source_lang ++ [58] ++ target_lang ++ [58] ++ text.

(** Lines 272-273: [for k in keys_to_remove: translation_cache.pop(k, None)] *)
Definition pop_all (ks : list str) (c : OD.t pyval) : OD.t pyval :=
  fold_left (fun c k => OD.pop k c) ks c.

(** Lines 120-122: the store of the dictionary path. *)
Definition store_dictionary_translation (key dictionary_translation : str)
    (c : OD.t pyval) : OD.t pyval :=
  if ENABLE_CACHE settings then OD.set key (VStr dictionary_translation) c else c.

(** Lines 264-273: the store of the model path. *)
Definition store_translation (key : str) (translated_text : pyval) (c : OD.t pyval)
    : OD.t pyval :=
  if ENABLE_CACHE settings then
    let c := OD.set key translated_text c in
    if (len c >? 1000)%Z then pop_all (take 100 (OD.keys c)) c else c
  else c.

(** Lines 126-295, once cache and dictionary gave nothing. *)
Definition translate_with_model (source_lang target_lang text now : str) (w : world)
    : result pyval * world :=
  let '(loaded, w) :=
    if ENABLE_DICTIONARY settings then
      let '(r, d) := DictionaryManager.get_dictionary target_lang (DICTIONARY w) in
      (rbind r (fun _ => Ok tt), set_dictionary d w)
    else (Ok tt, w) in
  match loaded with
  | Raise e => (Raise e, w)
  | Ok _ =>
      match chat false w with
      | (None, w) => (Raise (HTTPException 503), w)
      | (Some (RequestError _), w) =>
          (Raise (HTTPException 503), emit (LogError "connection_error") w)
      | (Some (ChatException msg), w) => (Raise (BackendError msg), w)
      | (Some (Content p), w) =>
          (* lines 204-211: without a translation the parsed reply takes
             its place *)
          let translated_text :=
            if truthy (p_translation p) then VStr (p_translation p) else VDict p in
          let wm := p_word_mapping p in
          if negb (vtruthy translated_text)
          then (Raise (HTTPException 500), emit (LogError "empty_response") w)
          else
            let '((translated_text, wm), w) :=
              if ENABLE_EVALUATION settings &&
                 (len text >=? MIN_TEXT_LENGTH_FOR_EVALUATION settings)%Z &&
                 (len text <=? MAX_TEXT_LENGTH_FOR_EVALUATION settings)%Z &&
                 (vlen translated_text >=? 2)%Z
              then translate_evaluator text translated_text wm w
              else ((translated_text, wm), w) in
            let w := emit (LogTranslation text translated_text []) w in
            let w := set_history
                       (TranslationHistory.add_history source_lang target_lang text
                          translated_text None None now (HISTORY w)) w in
            let w := set_cache
                       (store_translation (cache_key source_lang target_lang text)
                          translated_text (translation_cache w)) w in
            let w := match wm with
                     | Some l =>
                         set_dictionary
                           (DictionaryManager.process_word_mapping l target_lang
                              (DICTIONARY w)) w
                     | None => w
                     end in
            (Ok translated_text, w)
      end
  end.

(** [source_lang = None] is an argument left out or [None]; [now] is the
    clock when the history record is written. *)
Definition translate_text (source_lang : option str) (target_lang text now : str)
    (w : world) : result pyval * world :=
  let source_lang :=
    match source_lang with
    | Some s => if truthy s then s else lit "auto"
    | None => lit "auto"
    end in
  if negb (truthy text) || str_eqb (strip text) [] then (Ok (VStr []), w)
  else
    let key := cache_key source_lang target_lang text in
    match (if ENABLE_CACHE settings then OD.get key (translation_cache w) else None) with
    | Some cached_result =>
        (Ok cached_result, emit (LogTranslation text cached_result (lit " (cache)")) w)
    | None =>
        if ENABLE_DICTIONARY settings then
          match DictionaryManager.get_translation text target_lang (DICTIONARY w) with
          | (Raise e, d) => (Raise e, set_dictionary d w)
          | (Ok (Some dictionary_translation), d) =>
              let w := set_dictionary d w in
              let w := emit (LogTranslation text (VStr dictionary_translation)
                               (lit " (dictionary)")) w in
              let w := set_history
                         (TranslationHistory.add_history source_lang target_lang text
                            (VStr dictionary_translation) (Some 100%Z) None now
                            (HISTORY w)) w in
              let w := set_cache
                         (store_dictionary_translation key dictionary_translation
                            (translation_cache w)) w in
              (Ok (VStr dictionary_translation), w)
          | (Ok None, d) =>
              translate_with_model source_lang target_lang text now (set_dictionary d w)
          end
        else translate_with_model source_lang target_lang text now w
    end.
End TranslateService.
End TranslateService.

(** ** app/services/consistent_translator.py *)
Module ConsistentTranslator.
Section ConsistentTranslator.
Context `{UnicodeDB}.
Variable settings : Settings.

(** The references only select the system prompt handed on. *)
Definition translate (text : str) (source_lang : option str) (target_lang now : str)
    (w : world) : result pyval * world :=
  match source_lang with
  | None | Some [] => (Raise (PlainException "source_lang is required"), w)
  | Some source_lang =>
      if str_eqb source_lang target_lang then (Ok (VStr text), w)
      else if negb (truthy text) || str_eqb (strip text) [] then (Ok (VStr []), w)
      else
        match DictionaryManager.get_prompt_references text target_lang (DICTIONARY w) with
        | (Raise e, d) => (Raise e, set_dictionary d w)
        | (Ok references, d) =>
            TranslateService.translate_text settings (Some source_lang) target_lang
              text now (set_dictionary d w)
        end
  end.
End ConsistentTranslator.
End ConsistentTranslator.

(** * Properties *)

(** ** Stripping *)

Definition no_lead (s : str) : Prop :=
  match s with c :: _ => isspace c = false | [] => True end.

Lemma lstrip_no_lead (s : str) : no_lead (lstrip s).
Proof.
  induction s as [|c s IH]; simpl; [exact I|].
  destruct (isspace c) eqn:E; [exact IH | exact E].
Qed.

Lemma lstrip_id (s : str) : no_lead s -> lstrip s = s.
Proof. destruct s as [|c s]; simpl; [reflexivity|]. intros ->. reflexivity. Qed.

Lemma lstrip_suffix (s : str) :
  exists p, s = p ++ lstrip s /\ Forall (fun c => isspace c = true) p.
Proof.
  induction s as [|c s (p & Hp & Hall)]; simpl.
  - exists []. split; [reflexivity | constructor].
  - destruct (isspace c) eqn:E.
    + exists (c :: p). split; [simpl; congruence | constructor; assumption].
    + exists []. split; [reflexivity | constructor].
Qed.

Lemma rstrip_prefix (s : str) :
  exists q, s = rstrip s ++ q /\ Forall (fun c => isspace c = true) q.
Proof.
  unfold rstrip. destruct (lstrip_suffix (rev s)) as (p & Hp & Hall).
  exists (rev p). split.
  - rewrite <- rev_app_distr, <- Hp, rev_involutive. reflexivity.
  - apply List.Forall_rev. exact Hall.
Qed.

Lemma rstrip_no_lead (s : str) : no_lead s -> no_lead (rstrip s).
Proof.
  intros Hs. destruct (rstrip_prefix s) as (q & Hq & _).
  destruct (rstrip s) as [|c r] eqn:E; [exact I|].
  rewrite Hq in Hs. exact Hs.
Qed.

Lemma rstrip_no_trail (s : str) : no_lead (rev (rstrip s)).
Proof. unfold rstrip. rewrite rev_involutive. apply lstrip_no_lead. Qed.

Lemma strip_fixed (s : str) : no_lead s -> no_lead (rev s) -> strip s = s.
Proof.
  intros H1 H2. unfold strip, rstrip.
  rewrite (lstrip_id s H1), (lstrip_id (rev s) H2). apply rev_involutive.
Qed.

Lemma strip_idem (s : str) : strip (strip s) = strip s.
Proof.
  apply strip_fixed.
  - unfold strip. apply rstrip_no_lead, lstrip_no_lead.
  - unfold strip. apply rstrip_no_trail.
Qed.

(** ** A character database to compute with

    ASCII letters and digits and the Hangul syllables are alphanumeric, and
    case is mapped on ASCII letters only. *)
Definition is_hangul (c : N) : bool := (44032 <=? c) && (c <=? 55203).

Lemma ascii_lower_idem (c : N) : ascii_lower (ascii_lower c) = ascii_lower c.
Proof.
  unfold ascii_lower, is_ascii_upper.
  destruct ((65 <=? c) && (c <=? 90)) eqn:E; [|rewrite E; reflexivity].
  apply andb_prop in E as [E1 E2].
  apply N.leb_le in E1. apply N.leb_le in E2.
  replace (c + 32 <=? 90) with false by (symmetry; apply N.leb_gt; lia).
  rewrite andb_false_r. reflexivity.
Qed.

Lemma isspace_ascii_lower (c : N) : isspace (ascii_lower c) = isspace c.
Proof.
  unfold ascii_lower, is_ascii_upper.
  destruct ((65 <=? c) && (c <=? 90)) eqn:E; [|reflexivity].
  apply andb_prop in E as [E1 E2].
  apply N.leb_le in E1. apply N.leb_le in E2.
  unfold isspace.
  repeat match goal with
  | |- context [?a <=? ?b] =>
      first [ replace (a <=? b) with true by (symmetry; apply N.leb_le; lia)
            | replace (a <=? b) with false by (symmetry; apply N.leb_gt; lia) ]
  | |- context [?a =? ?b] =>
      replace (a =? b) with false by (symmetry; apply N.eqb_neq; lia)
  end.
  reflexivity.
Qed.

Lemma lstrip_map_lower (s : str) :
  lstrip (List.map ascii_lower s) = List.map ascii_lower (lstrip s).
Proof.
  induction s as [|c s IH]; simpl; [reflexivity|].
  rewrite isspace_ascii_lower. destruct (isspace c); [exact IH | reflexivity].
Qed.

Lemma strip_map_lower (s : str) :
  List.map ascii_lower (strip s) = strip (List.map ascii_lower s).
Proof.
  unfold strip, rstrip.
  rewrite lstrip_map_lower, <- !map_rev, lstrip_map_lower, map_rev. reflexivity.
Qed.

#[export] Program Instance basic_db : UnicodeDB := {|
  isalnum_cp c := is_ascii_letter c || is_ascii_digit c || is_hangul c;
  isdecimal_cp c := is_ascii_digit c;
  isdigit_cp c := is_ascii_digit c;
  isalpha_cp c := is_ascii_letter c || is_hangul c;
  py_lower s := List.map ascii_lower s;
  re_ci_eq a b := ascii_lower a =? ascii_lower b
|}.
Next Obligation. reflexivity. Qed.
Next Obligation. reflexivity. Qed.
Next Obligation.
  intros s. rewrite List.map_map. apply List.map_ext. intros c. apply ascii_lower_idem.
Qed.
Next Obligation. intros s. apply strip_map_lower. Qed.


(** ** Language codes *)
Section NormalizeFacts.
Context `{UnicodeDB}.
Import LanguageUtils.

Lemma lower_strip_fixed (x : str) :
  strip (py_lower (strip (py_lower x))) = strip (py_lower x).
Proof. rewrite py_lower_strip, py_lower_idem. apply strip_idem. Qed.

(** A string that is already in normal shape and is no key of the table is
    returned as it is. *)
Lemma normalize_fixed (v : str) :
  strip (py_lower v) = v -> OD.get v code_mapping = None ->
  normalize_language_code v = v.
Proof.
  intros Hv Hget. unfold normalize_language_code.
  destruct v as [|c v]; [reflexivity|]. cbn [truthy negb].
  rewrite Hv, Hget. destruct (_ && _); reflexivity.
Qed.

Lemma normalize_code (v : str) :
  Forall (fun c => c < 128) v -> strip (List.map ascii_lower v) = v ->
  OD.get v code_mapping = None -> normalize_language_code v = v.
Proof.
  intros Hascii Hv Hget. apply normalize_fixed; [|exact Hget].
  rewrite (py_lower_ascii v Hascii). exact Hv.
Qed.

Lemma normalize_mapped (n v : str) :
  OD.get n code_mapping = Some v -> normalize_language_code v = v.
Proof.
  unfold code_mapping. cbn [OD.get].
  repeat match goal with
  | |- (if ?b then _ else _) = _ -> _ => destruct b
  end;
  try discriminate;
  intros [= <-]; (apply normalize_code;
    [ repeat constructor | vm_compute; reflexivity | vm_compute; reflexivity ]).
Qed.

(** C7: [normalize_language_code] is idempotent on every string. *)
Theorem normalize_language_code_idempotent (x : str) :
  normalize_language_code (normalize_language_code x) = normalize_language_code x.
Proof.
  unfold normalize_language_code at 2 3.
  destruct (truthy x); cbn [negb]; [|reflexivity].
  destruct (OD.get (strip (py_lower x)) code_mapping) as [v|] eqn:Hget.
  - exact (normalize_mapped _ _ Hget).
  - assert (Hn : normalize_language_code (strip (py_lower x)) = strip (py_lower x))
      by (apply normalize_fixed; [apply lower_strip_fixed | exact Hget]).
    destruct (_ && _); exact Hn.
Qed.
End NormalizeFacts.

(** ** Cleaning of special characters *)

(** Whitespace occurs only as single spaces; [b] tells that the code point
    before the string is whitespace. *)
Fixpoint single_spaced (b : bool) (s : str) : Prop :=
  match s with
  | [] => True
  | c :: s' =>
      if isspace c then b = false /\ c = SPACE /\ single_spaced true s'
      else single_spaced false s'
  end.

Lemma single_spaced_weaken (s : str) : single_spaced true s -> single_spaced false s.
Proof. destruct s as [|c s]; simpl; [tauto|]. destruct (isspace c); [|tauto]. intros [[=] _]. Qed.

Lemma single_spaced_prefix (p q : str) b : single_spaced b (p ++ q) -> single_spaced b p.
Proof.
  revert b. induction p as [|c p IH]; intros b; simpl; [tauto|].
  destruct (isspace c); [|apply IH]. intros (? & ? & ?). eauto.
Qed.

Lemma single_spaced_suffix (p q : str) b : single_spaced b (p ++ q) -> single_spaced false q.
Proof.
  revert b. induction p as [|c p IH]; intros b; simpl.
  - destruct b; [apply single_spaced_weaken | tauto].
  - destruct (isspace c); [|apply IH]. intros (_ & _ & Hs). exact (IH _ Hs).
Qed.

Section CleanFacts.
Context `{UnicodeDB}.

Lemma collapse_single_spaced (s : str) b : single_spaced b (Re.collapse_ws b s).
Proof.
  revert b. induction s as [|c s IH]; intros b; simpl; [exact I|].
  destruct (isspace c) eqn:E.
  - destruct b; [apply IH|]. simpl. split; [reflexivity|]. split; [reflexivity | apply IH].
  - simpl. rewrite E. apply IH.
Qed.

Lemma collapse_fixed (s : str) b : single_spaced b s -> Re.collapse_ws b s = s.
Proof.
  revert b. induction s as [|c s IH]; intros b; simpl; [reflexivity|].
  destruct (isspace c).
  - intros (-> & -> & Hs). f_equal. exact (IH _ Hs).
  - intros Hs. f_equal. exact (IH _ Hs).
Qed.

Lemma collapse_Forall (P : N -> Prop) (s : str) b :
  P SPACE -> Forall P s -> Forall P (Re.collapse_ws b s).
Proof.
  intros HP Hs. revert b. induction Hs as [|c s Hc Hs IH]; intros b; simpl; [constructor|].
  destruct (isspace c); [destruct b|]; try constructor; auto.
Qed.

Lemma strip_decompose (s : str) : exists p q, s = p ++ strip s ++ q.
Proof.
  destruct (lstrip_suffix s) as (p & Hp & _).
  destruct (rstrip_prefix (lstrip s)) as (q & Hq & _).
  exists p, q. unfold strip. rewrite <- Hq. exact Hp.
Qed.

Lemma strip_Forall (P : N -> Prop) (s : str) : Forall P s -> Forall P (strip s).
Proof.
  destruct (strip_decompose s) as (p & q & Hs). intros HP. rewrite Hs in HP.
  apply Forall_app in HP as [_ HP]. apply Forall_app in HP as [HP _]. exact HP.
Qed.

Lemma strip_single_spaced (s : str) : single_spaced false s -> single_spaced false (strip s).
Proof.
  destruct (strip_decompose s) as (p & q & Hs). intros HP. rewrite Hs in HP.
  apply single_spaced_suffix in HP. exact (single_spaced_prefix _ _ _ HP).
Qed.

Lemma sub_outside_fixed (keep : N -> bool) (s : str) :
  Forall (fun c => keep c = true) s -> Re.sub_outside keep s = s.
Proof.
  induction 1 as [|c s Hc Hs IH]; simpl; [reflexivity|]. rewrite Hc. f_equal. exact IH.
Qed.

(** The shape both variants share: replace what is not kept, collapse the
    whitespace, strip. *)
Definition clean_with (keep : N -> bool) (text : str) : str :=
  if negb (truthy text) then []
  else strip (Re.collapse_ws false (Re.sub_outside keep text)).

Lemma clean_with_idempotent (keep : N -> bool) (t : str) :
  keep SPACE = true -> clean_with keep (clean_with keep t) = clean_with keep t.
Proof.
  intros Hsp. unfold clean_with at 2 3.
  destruct (truthy t); cbn [negb]; [|reflexivity].
  remember (strip (Re.collapse_ws false (Re.sub_outside keep t))) as r eqn:Hr.
  assert (Hkeep : Forall (fun c => keep c = true) r).
  { rewrite Hr. apply strip_Forall, collapse_Forall; [exact Hsp|].
    unfold Re.sub_outside. apply Forall_map, Forall_forall. intros c _. simpl.
    destruct (keep c) eqn:E; [exact E | exact Hsp]. }
  assert (Hss : single_spaced false r)
    by (rewrite Hr; apply strip_single_spaced, collapse_single_spaced).
  unfold clean_with. destruct r as [|c r]; [reflexivity|]. cbn [truthy negb].
  rewrite (sub_outside_fixed _ _ Hkeep), (collapse_fixed _ _ Hss), Hr.
  apply strip_idem.
Qed.

(** C10: [clean_special_chars] is idempotent, in [translate_service.py] and
    in [translate_evaluator.py]. *)
Theorem clean_special_chars_idempotent (t : str) :
  TranslateService.clean_special_chars (TranslateService.clean_special_chars t)
    = TranslateService.clean_special_chars t /\
  TranslationEvaluator.clean_special_chars (TranslationEvaluator.clean_special_chars t)
    = TranslationEvaluator.clean_special_chars t.
Proof.
  split.
  - apply (clean_with_idempotent
      (fun c => Re.is_word c || isspace c
                || contains_cp c TranslateService.allowed_special_chars)).
    rewrite orb_true_r. reflexivity.
  - apply (clean_with_idempotent
      (fun c => Re.is_word c || isspace c
                || contains_cp c TranslationEvaluator.allowed_special_chars)).
    rewrite orb_true_r. reflexivity.
Qed.
End CleanFacts.

(** ** Translation history *)
Module HistoryFacts.
Import TranslationHistory.

(** One [add_history] call, its arguments gathered in the record it stores. *)
Definition add_record (source_lang target_lang : str) (r : record) (st : state) : state :=
  add_history source_lang target_lang (source_text r) (translated_text r)
    (quality_score r) (feedback r) (timestamp r) st.

Definition add_all (source_lang target_lang : str) (rs : list record) (st : state) : state :=
  fold_left (fun st r => add_record source_lang target_lang r st) rs st.

(** The most recent record of every source text, in the order of addition. *)
Fixpoint latest (rs : list record) : list record :=
  match rs with
  | [] => []
  | r :: rs' =>
      if existsb (fun r' => str_eqb (source_text r') (source_text r)) rs'
      then latest rs' else r :: latest rs'
  end.

Definition other (src : str) (item : record) : bool := negb (str_eqb (source_text item) src).

Lemma latest_snoc (rs : list record) (r : record) :
  latest (rs ++ [r]) = List.filter (other (source_text r)) (latest rs) ++ [r].
Proof.
  induction rs as [|a rs IH]; [reflexivity|].
  cbn [latest app]. rewrite existsb_app. cbn [existsb]. rewrite orb_false_r, IH.
  destruct (existsb _ rs) eqn:Ex; cbn [orb]; [reflexivity|].
  assert (Ho : other (source_text r) a = negb (str_eqb (source_text r) (source_text a))).
  { unfold other, str_eqb. f_equal. apply bool_decide_ext. split; congruence. }
  cbn [List.filter]. rewrite Ho.
  destruct (str_eqb (source_text r) (source_text a)); reflexivity.
Qed.

Lemma latest_keys (rs : list record) (x : record) :
  In x (latest rs) -> In x rs.
Proof.
  induction rs as [|a rs IH]; simpl; [tauto|].
  destruct (existsb _ rs); simpl; tauto.
Qed.

Lemma latest_NoDup (rs : list record) : List.NoDup (List.map source_text (latest rs)).
Proof.
  induction rs as [|a rs IH]; simpl; [constructor|].
  destruct (existsb _ rs) eqn:Ex; [exact IH|].
  simpl. constructor; [|exact IH].
  intros Hin. apply in_map_iff in Hin as (x & Hx & Hin).
  apply latest_keys in Hin.
  assert (existsb (fun r' => str_eqb (source_text r') (source_text a)) rs = true).
  { apply existsb_exists. exists x. split; [exact Hin|].
    unfold str_eqb. apply bool_decide_eq_true_2. exact Hx. }
  congruence.
Qed.

Lemma filter_other_fresh (src : str) (l : list record) :
  ~ In src (List.map source_text l) -> List.filter (other src) l = l.
Proof.
  induction l as [|a l IH]; simpl; [reflexivity|]. intros Hn.
  unfold other at 1, str_eqb. rewrite bool_decide_eq_false_2 by tauto.
  simpl. f_equal. apply IH. tauto.
Qed.

(** Among records of distinct source texts the filter removes at most one. *)
Lemma filter_other_length (src : str) (l : list record) :
  List.NoDup (List.map source_text l) ->
  (List.length l <= S (List.length (List.filter (other src) l)))%nat.
Proof.
  induction l as [|a l IH]; simpl; [lia|]. intros Hnd.
  apply List.NoDup_cons_iff in Hnd as [Hna Hnd].
  unfold other at 1, str_eqb.
  destruct (bool_decide (source_text a = src)) eqn:E; simpl.
  - apply bool_decide_eq_true in E. subst src.
    rewrite (filter_other_fresh _ _ Hna). lia.
  - specialize (IH Hnd). lia.
Qed.

Lemma NoDup_drop {A} (n : nat) (l : list A) : List.NoDup l -> List.NoDup (drop n l).
Proof.
  revert n. induction l as [|a l IH]; intros [|n] Hnd; simpl; try assumption.
  apply IH. apply List.NoDup_cons_iff in Hnd. tauto.
Qed.

Lemma map_source_drop (k : nat) (l : list record) :
  List.map source_text (drop k l) = drop k (List.map source_text l).
Proof. revert k. induction l as [|a l IH]; intros [|k]; simpl; auto. Qed.

(** Truncating before the next call loses nothing the next truncation keeps. *)
Lemma last_n_step (src : str) (r : record) (l : list record) :
  List.NoDup (List.map source_text l) ->
  last_n 10 (List.filter (other src) (last_n 10 l) ++ [r])
  = last_n 10 (List.filter (other src) l ++ [r]).
Proof.
  intros Hnd.
  assert (Hk : last_n 10 l = drop (List.length l - 10) l) by reflexivity.
  rewrite Hk. clear Hk.
  set (k := (List.length l - 10)%nat).
  destruct (decide (k = 0%nat)) as [Hk|Hk]; [rewrite Hk; reflexivity|].
  rewrite <- (take_drop k l) at 2.
  rewrite List.filter_app, <- app_assoc.
  assert (HB : (10 <= S (List.length (List.filter (other src) (drop k l))))%nat).
  { assert (Hl : List.length (drop k l) = 10%nat) by (rewrite length_drop; subst k; lia).
    rewrite <- Hl at 1. apply filter_other_length.
    rewrite map_source_drop. apply NoDup_drop. exact Hnd. }
  set (A := List.filter (other src) (take k l)) in *.
  set (B := List.filter (other src) (drop k l)) in *.
  assert (Hn : forall X : list record, last_n 10 X = drop (List.length X - 10) X)
    by reflexivity.
  rewrite !Hn, !length_app. cbn [List.length].
  rewrite (drop_app_ge A) by lia. f_equal. lia.
Qed.

Lemma last_n_short {A} (l : list A) : (len l <= 10)%Z -> last_n 10 l = l.
Proof.
  unfold last_n, len. intros Hl.
  replace (List.length l - Z.to_nat 10)%nat with 0%nat by lia. reflexivity.
Qed.

Lemma last_n_length {A} (l : list A) : (len (last_n 10 l) <= 10)%Z.
Proof. unfold last_n, len. rewrite length_drop. lia. Qed.

Lemma get_history_add_record (sl tl : str) (r : record) (st : state) :
  get_history sl tl (add_record sl tl r st)
  = last_n 10 (List.filter (other (source_text r)) (get_history sl tl st) ++ [r]).
Proof.
  unfold add_record, add_history, get_history, _save_history. cbv zeta.
  assert (Hr : {| source_text := source_text r; translated_text := translated_text r;
                  quality_score := quality_score r; feedback := feedback r;
                  timestamp := timestamp r |} = r) by (destruct r; reflexivity).
  rewrite Hr.
  set (items := List.filter _ _ ++ [r]).
  assert (Hitems : (if (len items >? _max_history_per_lang_pair)%Z
                    then last_n _max_history_per_lang_pair items else items)
                   = last_n 10 items).
  { unfold _max_history_per_lang_pair.
    destruct (len items >? 10)%Z eqn:E; [reflexivity|].
    symmetry. apply last_n_short. lia. }
  rewrite Hitems.
  destruct (disk_writable st); cbn [_history disk_writable];
    rewrite lookup_insert_eq; reflexivity.
Qed.

Lemma add_all_snoc (sl tl : str) (rs : list record) (r : record) (st : state) :
  add_all sl tl (rs ++ [r]) st = add_record sl tl r (add_all sl tl rs st).
Proof. unfold add_all. rewrite fold_left_app. reflexivity. Qed.

Lemma get_history_add_all (sl tl : str) (rs : list record) (st : state) :
  get_history sl tl st = [] ->
  get_history sl tl (add_all sl tl rs st) = last_n 10 (latest rs).
Proof.
  intros Hst. induction rs as [|r rs IH] using rev_ind.
  - simpl. exact Hst.
  - rewrite add_all_snoc, get_history_add_record, IH, latest_snoc.
    apply last_n_step, latest_NoDup.
Qed.
End HistoryFacts.

(** C5: after any sequence of [add_history] calls on one language pair,
    starting without history for it, the pair holds the most recent record
    of each source text, the last ten of them: at most ten records, no source
    text twice. *)
Theorem add_history_bounded_unique_recent
    (source_lang target_lang : str) (rs : list TranslationHistory.record)
    (st : TranslationHistory.state) :
  TranslationHistory.get_history source_lang target_lang st = [] ->
  let h := TranslationHistory.get_history source_lang target_lang
             (HistoryFacts.add_all source_lang target_lang rs st) in
  h = TranslationHistory.last_n 10 (HistoryFacts.latest rs) /\
  (len h <= 10)%Z /\
  List.NoDup (List.map TranslationHistory.source_text h).
Proof.
  intros Hst h. subst h. rewrite (HistoryFacts.get_history_add_all _ _ _ _ Hst).
  split; [reflexivity|]. split; [apply HistoryFacts.last_n_length|].
  unfold TranslationHistory.last_n.
  rewrite HistoryFacts.map_source_drop.
  apply HistoryFacts.NoDup_drop, HistoryFacts.latest_NoDup.
Qed.

Definition sample_record (n : N) : TranslationHistory.record :=
  {| TranslationHistory.source_text := [n];
     TranslationHistory.translated_text := VStr [n + 1000];
     TranslationHistory.quality_score := None;
     TranslationHistory.feedback := None;
     TranslationHistory.timestamp := [] |}.

(** Eleven distinct source texts, then the third one again. *)
Definition sample_records : list TranslationHistory.record :=
  List.map sample_record [65; 66; 67; 68; 69; 70; 71; 72; 73; 74; 75; 67].

Lemma add_history_bounded_unique_recent_witness :
  TranslationHistory.get_history (lit "en") (lit "ko") TranslationHistory.empty = [] /\
  let h := TranslationHistory.get_history (lit "en") (lit "ko")
             (HistoryFacts.add_all (lit "en") (lit "ko") sample_records
                TranslationHistory.empty) in
  h = TranslationHistory.last_n 10 (HistoryFacts.latest sample_records) /\
  (len h <= 10)%Z /\
  List.NoDup (List.map TranslationHistory.source_text h).
Proof.
  split; [reflexivity|].
  apply (add_history_bounded_unique_recent (lit "en") (lit "ko") sample_records
           TranslationHistory.empty).
  reflexivity.
Defined.

Example add_history_eleven :
  List.map TranslationHistory.source_text
    (TranslationHistory.get_history (lit "en") (lit "ko")
       (HistoryFacts.add_all (lit "en") (lit "ko") sample_records
          TranslationHistory.empty))
  = [[66]; [68]; [69]; [70]; [71]; [72]; [73]; [74]; [75]; [67]].
Proof. vm_compute. reflexivity. Qed.

(** ** Evaluation *)

(** A backend that answers from a script and fails once it is used up;
    every other part of the process is empty. *)
Definition stub_world (script : list reply) : world :=
  {| backend := fun n => nth n script (ChatException []);
     deadline := fun _ => false;
     chat_calls := 0;
     translation_cache := [];
     DICTIONARY := DictionaryManager.empty;
     HISTORY := TranslationHistory.empty;
     _evaluation_history := ∅;
     log := [] |}.

(** C8, as amended: a source or a translation of fewer than three code
    points scores 95, identical texts of three code points or more score 100,
    and in both cases the process is left as it was: no backend call. *)
Theorem evaluate_translation_trivial (source_text translated_text : str) (w : world) :
  (len source_text < 3)%Z \/ (len translated_text < 3)%Z \/ source_text = translated_text ->
  TranslationEvaluator.evaluate_translation source_text (VStr translated_text) w
  = (Some (if (len source_text <? 3)%Z || (len translated_text <? 3)%Z
           then (95%Z, TranslationEvaluator.too_short_feedback)
           else (100%Z, TranslationEvaluator.same_text_feedback)), w).
Proof.
  intros Hc. unfold TranslationEvaluator.evaluate_translation.
  cbn [vlen str_is].
  destruct ((len source_text <? 3)%Z || (len translated_text <? 3)%Z) eqn:E;
    [reflexivity|].
  apply orb_false_elim in E as [E1 E2].
  apply Z.ltb_ge in E1. apply Z.ltb_ge in E2.
  destruct Hc as [Hc|[Hc|Hc]]; try lia.
  unfold str_eqb. rewrite bool_decide_eq_true_2 by exact Hc. reflexivity.
Qed.

Lemma evaluate_translation_trivial_witness :
  TranslationEvaluator.evaluate_translation (lit "hello") (VStr (lit "hello")) (stub_world [])
  = (Some (100%Z, TranslationEvaluator.same_text_feedback), stub_world []).
Proof.
  apply (evaluate_translation_trivial (lit "hello") (lit "hello") (stub_world [])).
  right. right. reflexivity.
Defined.

(** Identical texts of two code points score 95, not 100. *)
Lemma evaluate_translation_identical_short :
  lit "ok" = lit "ok" /\
  option_map fst (fst (TranslationEvaluator.evaluate_translation
                         (lit "ok") (VStr (lit "ok")) (stub_world []))) <> Some 100%Z.
Proof. split; [reflexivity|]. vm_compute. discriminate. Qed.

(** ** The improvement loop *)

(** What [TranslationLogger.log_evaluation] received: the candidates
    observed with their scores. *)
Fixpoint evaluations (l : list event) : list (pyval * Z) :=
  match l with
  | [] => []
  | LogEvaluation t s :: l' => (t, s) :: evaluations l'
  | _ :: l' => evaluations l'
  end.

(** The improvement attempts announced. *)
Fixpoint attempts (l : list event) : nat :=
  match l with
  | [] => 0
  | PrintAttempt _ :: l' => S (attempts l')
  | _ :: l' => attempts l'
  end.

(** Events that are neither an evaluation nor an attempt. *)
Definition quiet (l : list event) : Prop := evaluations l = [] /\ attempts l = 0%nat.

Lemma evaluations_app (a b : list event) :
  evaluations (a ++ b) = evaluations a ++ evaluations b.
Proof.
  induction a as [|e a IH]; [reflexivity|]. destruct e; simpl; rewrite IH; reflexivity.
Qed.

Lemma attempts_app (a b : list event) : attempts (a ++ b) = (attempts a + attempts b)%nat.
Proof.
  induction a as [|e a IH]; [reflexivity|]. destruct e; simpl; rewrite IH; reflexivity.
Qed.

Lemma chat_log (guarded : bool) (w : world) : log (snd (chat guarded w)) = log w.
Proof. unfold chat. destruct (guarded && _); reflexivity. Qed.

Lemma evaluate_translation_quiet (s : str) (t : pyval) (w : world) :
  exists new, log (snd (TranslationEvaluator.evaluate_translation s t w)) = new ++ log w
              /\ quiet new.
Proof.
  unfold TranslationEvaluator.evaluate_translation.
  destruct (_ || _); [exists []; repeat split|].
  destruct (str_is s t); [exists []; repeat split|].
  pose proof (chat_log true w) as Hc.
  destruct (chat true w) as [[[p|msg|msg]|] w1]; simpl in Hc |- *.
  - destruct (p_score p); simpl; rewrite Hc;
      first [ exists []; repeat split; fail
            | exists [LogError "json_parse_error"]; repeat split ].
  - rewrite Hc. exists [LogError "evaluation_error"]. repeat split.
  - rewrite Hc. exists [LogError "evaluation_error"]. repeat split.
  - rewrite Hc. exists []. repeat split.
Qed.

Lemma improve_translation_quiet (s : str) (t : pyval) (fb : str) wm (w : world) :
  exists new, log (snd (TranslationEvaluator.improve_translation s t fb wm w)) = new ++ log w
              /\ quiet new.
Proof.
  unfold TranslationEvaluator.improve_translation.
  destruct t as [t|p]; [|exists []; repeat split].
  pose proof (chat_log true w) as Hc.
  destruct (chat true w) as [[[p|msg|msg]|] w1]; simpl in Hc |- *.
  - destruct (negb _); simpl; rewrite Hc; exists []; repeat split.
  - rewrite Hc. exists [LogError "improvement_error"]. repeat split.
  - rewrite Hc. exists [LogError "improvement_error"]. repeat split.
  - rewrite Hc. exists []. repeat split.
Qed.

Section LoopFacts.
Variable settings : Settings.
Import TranslateService.

(** What a run of the loop guarantees about the events [new] it adds. *)
Definition loop_post (fuel : nat) (ls ls' : loop_state) (new : list event) : Prop :=
  (attempts new <= fuel)%nat /\
  (best_score ls <= best_score ls')%Z /\
  Forall (fun e => (snd e <= best_score ls')%Z) (evaluations new) /\
  ((best_translation ls' = best_translation ls /\ best_score ls' = best_score ls) \/
   In (best_translation ls', best_score ls') (evaluations new)).

Ltac log_eq :=
  repeat match goal with
  | H : log _ = _ |- _ => rewrite H; clear H
  | _ => progress cbn [log emit fst snd]
  end;
  repeat first [rewrite <- app_assoc | rewrite <- app_comm_cons | progress cbn [app]];
  reflexivity.

Lemma improvement_loop_best (text : str) (fuel : nat) :
  forall (a : Z) (ls : loop_state) (w : world),
  exists new,
    log (snd (improvement_loop settings text fuel a ls w)) = new ++ log w /\
    loop_post fuel ls (fst (improvement_loop settings text fuel a ls w)) new.
Proof.
  induction fuel as [|fuel IH]; intros a ls w.
  - exists []. simpl. repeat split; try lia; auto. 
  - cbn [improvement_loop].
    set (w1 := emit (PrintAttempt (a + 1)) w).
    destruct (improve_translation_quiet text (current_translation ls) (feedback ls)
                (word_mapping ls) w1) as (n1 & Hn1 & Hq1 & Ha1).
    destruct (TranslationEvaluator.improve_translation _ _ _ _ w1)
      as [[[improved wm]|] w2]; cbn [snd] in Hn1.
    + cbn [current_translation best_score best_translation best_feedback feedback
             word_mapping].
      destruct (str_is improved (current_translation ls)).
      * exists (n1 ++ [PrintAttempt (a + 1)]). cbn [fst snd]. split.
        { unfold w1 in *. log_eq. }
        unfold loop_post. rewrite evaluations_app, attempts_app, Hq1, Ha1. simpl.
        repeat split; try lia; auto.
      * cbv zeta.
        destruct (evaluate_translation_quiet text (VStr improved) w2) as (n2 & Hn2 & Hq2 & Ha2).
        destruct (TranslationEvaluator.evaluate_translation text (VStr improved) w2)
          as [[[s fb]|] w3]; cbn [snd] in Hn2.
        -- set (bs := if (s >? best_score ls)%Z then s else best_score ls).
           set (bt := if (s >? best_score ls)%Z then VStr improved else best_translation ls).
           assert (Hb : (best_score ls <= bs /\ s <= bs)%Z).
           { subst bs. destruct (s >? best_score ls)%Z eqn:E; lia. }
           assert (Hin : (bt = best_translation ls /\ bs = best_score ls) \/
                         (bt, bs) = (VStr improved, s)).
           { subst bs bt. destruct (s >? best_score ls)%Z; auto. }
           destruct (s >=? QUALITY_THRESHOLD settings)%Z.
           ++ exists (LogEvaluation (VStr improved) s :: n2 ++ n1 ++ [PrintAttempt (a + 1)]).
              cbn [fst snd]. split.
              { unfold w1 in *. log_eq. }
              unfold loop_post. cbn [evaluations attempts best_score best_translation].
              rewrite !evaluations_app, !attempts_app, Hq1, Ha1, Hq2, Ha2. simpl.
              repeat split; try lia.
              ** constructor; [simpl; lia | constructor].
              ** destruct Hin as [Hin|Hin]; [left; exact Hin | right; left; symmetry; exact Hin].
           ++ match goal with
              | |- context [improvement_loop settings text fuel ?a' ?ls' ?w'] =>
                  destruct (IH a' ls' w') as (n3 & Hn3 & Hat3 & Hbs3 & Hall3 & Hin3)
              end.
              exists (n3 ++ LogEvaluation (VStr improved) s :: n2 ++ n1 ++ [PrintAttempt (a + 1)]).
              split.
              { unfold w1 in *. log_eq. }
              unfold loop_post.
              rewrite !evaluations_app, !attempts_app. cbn [evaluations attempts].
              rewrite !evaluations_app, !attempts_app, Hq1, Ha1, Hq2, Ha2. simpl.
              cbn [best_score best_translation] in Hbs3, Hin3.
              repeat split; try lia.
              ** apply Forall_app. split; [exact Hall3|].
                 constructor; [simpl; lia | constructor].
              ** destruct Hin3 as [[Ht Hs]|Hin3].
                 --- rewrite Ht, Hs. destruct Hin as [Hin|Hin]; [left; exact Hin|].
                     right. apply in_or_app. right. left. symmetry. exact Hin.
                 --- right. apply in_or_app. left. exact Hin3.
        -- match goal with
           | |- context [improvement_loop settings text fuel ?a' ?ls' ?w'] =>
               destruct (IH a' ls' w') as (n3 & Hn3 & Hat3 & Hbs3 & Hall3 & Hin3)
           end.
           exists (n3 ++ n2 ++ n1 ++ [PrintAttempt (a + 1)]). split.
           { unfold w1 in *. log_eq. }
           unfold loop_post.
           rewrite !evaluations_app, !attempts_app, Hq1, Ha1, Hq2, Ha2. simpl.
           rewrite !app_nil_r.
           cbn [best_score best_translation] in Hbs3, Hin3.
           repeat split; try lia; auto.
    + destruct (IH (a + 1)%Z ls w2) as (n3 & Hn3 & Hat3 & Hbs3 & Hall3 & Hin3).
      exists (n3 ++ n1 ++ [PrintAttempt (a + 1)]). split.
      { unfold w1 in *. log_eq. }
      unfold loop_post. rewrite !evaluations_app, !attempts_app, Hq1, Ha1. simpl.
      rewrite !app_nil_r.
      repeat split; try lia; auto.
Qed.

(** For every backend: the translation returned is an evaluated candidate
    (the first translation or an improvement handed to
    [TranslationLogger.log_evaluation]) whose score no evaluated score
    exceeds, and at most [MAX_IMPROVEMENT_ATTEMPTS] attempts are announced. *)
Lemma translate_evaluator_logged_best (text : str) (translated_text : pyval)
    (wm : option (list DictionaryManager.WordMapping)) (w w0 : world)
    (score : Z) (fb : str) :
  TranslationEvaluator.evaluate_translation text translated_text w = (Some (score, fb), w0) ->
  let r := translate_evaluator settings text translated_text wm w in
  exists new,
    log (snd r) = new ++ log w /\
    In (translated_text, score) (evaluations new) /\
    ((QUALITY_THRESHOLD settings <= score)%Z ->
       fst (fst r) = translated_text /\ attempts new = 0%nat) /\
    ((score < QUALITY_THRESHOLD settings)%Z ->
       (Z.of_nat (attempts new) <= Z.max 0 (MAX_IMPROVEMENT_ATTEMPTS settings))%Z /\
       exists best,
         In (fst (fst r), best) (evaluations new) /\
         Forall (fun e => (snd e <= best)%Z) (evaluations new)).
Proof.
  intros Hev r. subst r. unfold translate_evaluator.
  destruct (evaluate_translation_quiet text translated_text w) as (n0 & Hn0 & Hq0 & Ha0).
  rewrite Hev in Hn0 |- *. cbn [snd] in Hn0.
  destruct (score <? QUALITY_THRESHOLD settings)%Z eqn:E.
  - apply Z.ltb_lt in E.
    match goal with
    | |- context [improvement_loop settings text ?f ?a' ?ls' ?w'] =>
        destruct (improvement_loop_best text f a' ls' w')
          as (n3 & Hn3 & Hat3 & Hbs3 & Hall3 & Hin3);
        destruct (improvement_loop settings text f a' ls' w') as [ls1 w1]
    end.
    cbn [fst snd best_score best_translation] in *.
    exists (n3 ++ LogEvaluation translated_text score :: n0).
    rewrite !evaluations_app, !attempts_app. cbn [evaluations attempts].
    rewrite Hq0, Ha0. split; [log_eq|].
    split; [apply in_or_app; right; left; reflexivity|].
    split; [lia|]. intros _. split; [lia|].
    exists (best_score ls1). split.
    + destruct Hin3 as [[-> ->]|Hin3]; apply in_or_app; [right; left; reflexivity|].
      left. exact Hin3.
    + apply Forall_app. split; [exact Hall3|].
      constructor; [simpl; lia | constructor].
  - apply Z.ltb_ge in E. cbn [fst snd].
    exists (LogEvaluation translated_text score :: n0).
    cbn [evaluations attempts]. rewrite Hq0, Ha0.
    split; [log_eq|]. split; [left; reflexivity|].
    split; [intros _; split; reflexivity | lia].
Qed.

(** *** A backend that answers every attempt *)

(** The reply carries the translation [t]. *)
Definition translates_to (r : reply) (t : str) : Prop :=
  exists p, r = Content p /\ p_translation p = t.

(** The reply carries the score [s]. *)
Definition scores (r : reply) (s : Z) : Prop :=
  exists p, r = Content p /\ p_score p = ScoreInt s.

(** A text the evaluator sends to the backend for [text]: three code points
    or more, and not [text] itself. *)
Definition evaluable (text t : str) : Prop := (3 <= len t)%Z /\ t <> text.

(** Every text differs from the one before it. *)
Fixpoint progresses (l : list str) : Prop :=
  match l with
  | a :: (b :: _) as l' => a <> b /\ progresses l'
  | _ => True
  end.

(** Of the improvements the backend holds ready, those the loop gets to
    evaluate: at most [n], and none after one that meets the threshold. *)
Fixpoint evaluated (threshold : Z) (n : nat) (improvements : list (str * Z))
    : list (str * Z) :=
  match n, improvements with
  | S n', (t, s) :: rest =>
      (t, s) :: (if (s >=? threshold)%Z then [] else evaluated threshold n' rest)
  | _, _ => []
  end.

Lemma evaluated_length (threshold : Z) (n : nat) (l : list (str * Z)) :
  (List.length (evaluated threshold n l) <= n)%nat.
Proof.
  revert l. induction n as [|n IH]; intros [|[t s] l]; simpl; try lia.
  destruct (s >=? threshold)%Z; simpl; [lia|]. specialize (IH l). lia.
Qed.

(** The candidate kept after [l], starting from [b]: a later candidate
    replaces the one kept only with a higher score. *)
Definition keep (b c : pyval * Z) : pyval * Z := if (snd c >? snd b)%Z then c else b.

Lemma fold_keep_best (l : list (pyval * Z)) (b : pyval * Z) :
  In (fold_left keep l b) (b :: l) /\
  Forall (fun c => (snd c <= snd (fold_left keep l b))%Z) (b :: l).
Proof.
  revert b. induction l as [|c l IH]; intros b.
  - simpl. split; [left; reflexivity|]. repeat constructor. lia.
  - cbn [fold_left]. destruct (IH (keep b c)) as [Hin Hall].
    apply Forall_cons_1 in Hall as [Hk Hall].
    assert (Hbc : (snd b <= snd (keep b c) /\ snd c <= snd (keep b c))%Z)
      by (unfold keep; destruct (snd c >? snd b)%Z eqn:E; lia).
    split.
    + destruct Hin as [Hin|Hin]; [|right; right; exact Hin].
      rewrite <- Hin. unfold keep. destruct (snd c >? snd b)%Z; [right|]; left; reflexivity.
    + constructor; [lia|]. constructor; [lia | exact Hall].
Qed.

Lemma improve_translation_reply (text c fb : str) wm (w : world) (t : str) :
  deadline w (chat_calls w) = false ->
  translates_to (backend w (chat_calls w)) t -> t <> [] ->
  exists wm',
    TranslationEvaluator.improve_translation text (VStr c) fb wm w
    = (Some (t, wm'), set_chat_calls (S (chat_calls w)) w).
Proof.
  intros Hd (p & Hp & Ht) Hne.
  unfold TranslationEvaluator.improve_translation, chat. rewrite Hd, Hp. cbn [andb].
  rewrite Ht. destruct t as [|x t]; [congruence|]. cbn [truthy negb].
  eexists. reflexivity.
Qed.

Lemma evaluate_translation_reply (text t : str) (w : world) (s : Z) :
  (3 <= len text)%Z -> evaluable text t -> (0 <= s <= 100)%Z ->
  deadline w (chat_calls w) = false ->
  scores (backend w (chat_calls w)) s ->
  exists fb e,
    TranslationEvaluator.evaluate_translation text (VStr t) w
    = (Some (s, fb),
       TranslationEvaluator.store_evaluation_history text e
         (set_chat_calls (S (chat_calls w)) w)).
Proof.
  intros Hlen [Ht Hne] Hs Hd (p & Hp & Hsc).
  unfold TranslationEvaluator.evaluate_translation, chat. cbn [vlen str_is].
  replace (len text <? 3)%Z with false by (symmetry; apply Z.ltb_ge; lia).
  replace (len t <? 3)%Z with false by (symmetry; apply Z.ltb_ge; lia).
  cbn [orb]. unfold str_eqb. rewrite bool_decide_eq_false_2 by congruence.
  rewrite Hd, Hp. cbn [andb]. rewrite Hsc.
  replace (Z.max 0 (Z.min s 100)) with s by lia.
  eexists _, _. reflexivity.
Qed.

(** The loop against such a backend: it consumes the improvements it gets
    to evaluate, two backend calls each, and keeps the best of them. *)
Lemma improvement_loop_script (text : str) (fuel : nat) :
  forall (improvements : list (str * Z)) (a : Z) (ls : loop_state) (c : str) (w : world),
  current_translation ls = VStr c ->
  (forall i, deadline w i = false) ->
  (forall i t s, improvements !! i = Some (t, s) ->
     translates_to (backend w (chat_calls w + 2 * i)) t /\
     scores (backend w (chat_calls w + 1 + 2 * i)) s) ->
  (fuel <= List.length improvements)%nat ->
  (3 <= len text)%Z ->
  Forall (evaluable text) (List.map fst improvements) ->
  progresses (c :: List.map fst improvements) ->
  Forall (fun s => (0 <= s <= 100)%Z) (List.map snd improvements) ->
  let observed := evaluated (QUALITY_THRESHOLD settings) fuel improvements in
  let r := improvement_loop settings text fuel a ls w in
  chat_calls (snd r) = (chat_calls w + 2 * List.length observed)%nat /\
  (best_translation (fst r), best_score (fst r))
  = fold_left keep (List.map (fun c => (VStr (fst c), snd c)) observed)
      (best_translation ls, best_score ls).
Proof.
  induction fuel as [|fuel IH];
    intros improvements a ls c w Hcur Hdl Hbk Hfuel Hlen Hev Hprog Hsc; cbn zeta.
  - cbn. split; [lia | reflexivity].
  - destruct improvements as [|[t s] rest]; [cbn in Hfuel; lia|].
    cbn [List.map fst snd] in Hev, Hprog, Hsc.
    apply Forall_cons_1 in Hev as [Hevt Hev].
    apply Forall_cons_1 in Hsc as [Hst Hsc].
    destruct Hprog as [Hct Hprog].
    destruct (Hbk 0%nat t s eq_refl) as [Htr Hscr].
    rewrite Nat.mul_0_r, Nat.add_0_r in Htr, Hscr.
    cbn [improvement_loop evaluated].
    set (w1 := emit (PrintAttempt (a + 1)) w).
    destruct (improve_translation_reply text c (feedback ls) (word_mapping ls) w1 t)
      as (wm' & Himp).
    { apply Hdl. } { exact Htr. }
    { destruct Hevt as [Hl _]. destruct t; [vm_compute in Hl; congruence | discriminate]. }
    rewrite Hcur, Himp.
    cbn [current_translation best_score best_translation best_feedback feedback
           word_mapping str_is].
    assert (Htc : str_eqb t c = false)
      by (unfold str_eqb; apply bool_decide_eq_false_2; congruence).
    rewrite Htc. cbv zeta.
    set (w2 := set_chat_calls (S (chat_calls w1)) w1).
    destruct (evaluate_translation_reply text t w2 s Hlen Hevt Hst) as (fb & e & Heval).
    { apply Hdl. }
    { cbn. rewrite Nat.add_1_r in Hscr. exact Hscr. }
    rewrite Heval.
    set (w3 := TranslationEvaluator.store_evaluation_history text e _).
    destruct (s >=? QUALITY_THRESHOLD settings)%Z eqn:Eth.
    + cbn [fst snd best_translation best_score List.map fold_left List.length].
      split; [cbn; lia|].
      unfold keep. cbn [fst snd]. destruct (s >? best_score ls)%Z; reflexivity.
    + match goal with
      | |- context [improvement_loop settings text fuel ?a' ?ls' ?w'] =>
          specialize (IH rest a' ls' t w')
      end.
      cbn zeta in IH.
      destruct IH as [Hcalls Hbest]; try assumption.
      * reflexivity.
      * intros i t' s' Hi. destruct (Hbk (S i) t' s' Hi) as [H1 H2].
        cbn [chat_calls emit w3 w2 w1 TranslationEvaluator.store_evaluation_history
               set_evaluation_history set_chat_calls backend].
        replace (S (S (chat_calls w)) + 2 * i)%nat with (chat_calls w + 2 * S i)%nat by lia.
        replace (S (S (chat_calls w)) + 1 + 2 * i)%nat
          with (chat_calls w + 1 + 2 * S i)%nat by lia.
        split; assumption.
      * cbn in Hfuel. lia.
      * cbn [fst snd List.map fold_left List.length].
        split.
        -- rewrite Hcalls. unfold w3, w2, w1.
           cbn [chat_calls emit TranslationEvaluator.store_evaluation_history
                  set_evaluation_history set_chat_calls List.length].
           lia.
        -- rewrite Hbest. cbn [best_translation best_score]. unfold keep at 3.
           cbn [fst snd]. destruct (s >? best_score ls)%Z; reflexivity.
Qed.

End LoopFacts.

Definition scored (z : Z) : reply :=
  Content {| p_translation := []; p_word_mapping := None;
             p_score := ScoreInt z; p_feedback := None; p_other_keys := 0 |}.

Definition translated (t : str) : reply :=
  Content {| p_translation := t; p_word_mapping := None;
             p_score := ScoreAbsent; p_feedback := None; p_other_keys := 0 |}.

(** Threshold 90, three attempts. *)
Definition sample_settings : Settings :=
  {| ENABLE_CACHE := true; ENABLE_DICTIONARY := true; ENABLE_EVALUATION := true;
     QUALITY_THRESHOLD := 90; MAX_IMPROVEMENT_ATTEMPTS := 3;
     MIN_TEXT_LENGTH_FOR_EVALUATION := 8; MAX_TEXT_LENGTH_FOR_EVALUATION := 1000 |}.

(** The first translation scores 50 and the three attempts score 60, 75
    and 68. *)
Definition three_attempts : list (str * Z) :=
  [ (lit "second try", 60%Z); (lit "third try", 75%Z); (lit "fourth try", 68%Z) ].

Definition three_attempts_world : world :=
  stub_world [ scored 50; translated (lit "second try"); scored 60;
               translated (lit "third try"); scored 75;
               translated (lit "fourth try"); scored 68 ].


(** The evaluations score 60, 75 and 68; the backend then fails. *)
Definition best_of_world : world :=
  stub_world [ scored 60; translated (lit "second try"); scored 75;
               translated (lit "third try"); scored 68;
               translated (lit "fourth try") ].

Example translate_evaluator_best_of_three :
  fst (fst (TranslateService.translate_evaluator sample_settings
              (lit "good morning") (VStr (lit "first try")) None best_of_world))
  = VStr (lit "second try").
Proof. vm_compute. reflexivity. Qed.

Example translate_evaluator_threshold_met :
  let r := TranslateService.translate_evaluator sample_settings
             (lit "good morning") (VStr (lit "first try")) None (stub_world [scored 95]) in
  fst (fst r) = VStr (lit "first try") /\ chat_calls (snd r) = 1%nat /\
  attempts (log (snd r)) = 0%nat.
Proof. vm_compute. repeat split. Qed.

(** ** The dictionary *)
Section DictionaryFacts.
Context `{UnicodeDB}.
Import DictionaryManager.

Lemma existsb_false {A} (f : A -> bool) (l : list A) (x : A) :
  existsb f l = false -> In x l -> f x = false.
Proof.
  intros He Hin. destruct (f x) eqn:E; [|reflexivity].
  rewrite <- He. symmetry. apply existsb_exists. exists x. split; assumption.
Qed.

Lemma ascii_letter_not_digit (c : N) :
  is_ascii_letter c = true -> c < 128 /\ is_ascii_digit c = false.
Proof.
  unfold is_ascii_letter, is_ascii_upper, is_ascii_lower, is_ascii_digit.
  intros Hc. apply orb_prop in Hc as [Hc|Hc];
    apply andb_prop in Hc as [H1 H2];
    apply N.leb_le in H1; apply N.leb_le in H2;
    (split; [lia|]); apply andb_false_iff; right; apply N.leb_gt; lia.
Qed.

(** A word of ASCII letters is no digit string. *)
Lemma letters_not_isdigit (w : str) : Re.match_ascii_letters w = true -> isdigit w = false.
Proof.
  unfold Re.match_ascii_letters, isdigit. intros Hw.
  assert (Hhead : exists c w', w = c :: w' /\ is_ascii_letter c = true).
  { destruct (rev w) as [|x r] eqn:Er.
    - destruct w as [|c w']; [discriminate|].
      apply andb_prop in Hw as [_ Hw]. simpl in Hw. apply andb_prop in Hw as [Hc _]. eauto.
    - assert (Hw' : exists body, truthy body && forallb is_ascii_letter body = true /\
                                 exists q, w = body ++ q).
      { destruct (N.eq_dec x 10) as [->|Hx].
        - exists (rev r). split; [exact Hw|]. exists [10].
          rewrite <- (rev_involutive w), Er. reflexivity.
        - exists w. split; [|exists []; symmetry; apply app_nil_r].
          destruct x as [|p]; [exact Hw|].
          do 4 (destruct p as [p|p|]; try exact Hw). congruence. }
      destruct Hw' as (body & Hb & q & ->).
      destruct body as [|c b]; [discriminate|].
      apply andb_prop in Hb as [_ Hb]. simpl in Hb. apply andb_prop in Hb as [Hc _].
      simpl. eauto. }
  destruct Hhead as (c & w' & -> & Hc).
  apply ascii_letter_not_digit in Hc as [Hlt Hd].
  simpl. rewrite (isdigit_cp_ascii c Hlt), Hd. reflexivity.
Qed.

End DictionaryFacts.

(** "사라" and "김" *)
Definition sara_ko : str := [49324; 46972].
Definition kim_ko : str := [44608].

(** A process that holds a Korean dictionary with two character names. *)
Definition names_state : DictionaryManager.state :=
  {| DictionaryManager._dictionaries :=
       {[ lit "ko" := [ (lit "character_names",
                         [ (lit "Sara", sara_ko); (lit "Kim", kim_ko) ]) ] ]};
     DictionaryManager.files := ∅;
     DictionaryManager.can_create := true |}.

Definition names_dictionary : DictionaryManager.dictionary :=
  [ (lit "character_names", [ (lit "Sara", sara_ko); (lit "Kim", kim_ko) ]) ].


Example get_translation_partial :
  fst (DictionaryManager.get_translation (lit "Sara Kim") (lit "ko") names_state)
  = Ok (Some (sara_ko ++ [SPACE] ++ kim_ko)).
Proof. vm_compute. reflexivity. Qed.

(** A word left in the original language makes the partial answer void. *)
Example get_translation_mixed :
  fst (DictionaryManager.get_translation (lit "Sara went home") (lit "ko") names_state)
  = Ok None.
Proof. vm_compute. reflexivity. Qed.

(** *** Tokens the check does not see

    The claim as the specification words it speaks of bare alphabetic
    tokens; they are read here as the maximal runs of letters of a string. *)
Fixpoint runs_aux (p : N -> bool) (cur : str) (s : str) : list str :=
  match s with
  | [] => match cur with [] => [] | _ => [rev cur] end
  | c :: s' =>
      if p c then runs_aux p (c :: cur) s'
      else match cur with [] => runs_aux p [] s' | _ => rev cur :: runs_aux p [] s' end
  end.

Definition alpha_tokens `{UnicodeDB} (s : str) : list str := runs_aux isalpha_cp [] s.


(** A word of letters that are not ASCII is not tested either:
    ["привет Sara"] is answered with ["привет 사라"]. *)
Example get_translation_keeps_cyrillic_word :
  let privet : str := [1087; 1088; 1080; 1074; 1077; 1090] in
  fst (DictionaryManager.get_translation (privet ++ lit " Sara") (lit "ko") names_state)
  = Ok (Some (privet ++ [SPACE] ++ sara_ko)).
Proof. vm_compute. reflexivity. Qed.

(** *** Learning a term *)

(** The round trip holds for a category of [_priority_categories]. *)
Example add_translation_character_names_found :
  let r := DictionaryManager.add_translation (lit "Sara") sara_ko (lit "ko")
             (lit "character_names") (9 # 10) DictionaryManager.empty in
  fst r = true /\
  fst (DictionaryManager.get_translation (lit "Sara") (lit "ko") (snd r)) = Ok (Some sara_ko).
Proof. vm_compute. split; reflexivity. Qed.

(** C2: [add_translation("Sara", "사라", "ko", "proper_nouns", 0.9)] succeeds
    and stores the entry, and [get_translation("Sara", "ko")] then answers
    [None]: the lookup only walks [_priority_categories], which does not
    list ["proper_nouns"]. *)
Theorem add_translation_proper_nouns_not_found :
  let r := DictionaryManager.add_translation (lit "Sara") sara_ko (lit "ko")
             (lit "proper_nouns") (9 # 10) DictionaryManager.empty in
  fst r = true /\
  DictionaryManager._dictionaries (snd r) !! lit "ko"
    = Some [ (lit "proper_nouns", [ (lit "Sara", sara_ko) ]) ] /\
  fst (DictionaryManager.get_translation (lit "Sara") (lit "ko") (snd r)) = Ok None.
Proof. vm_compute. repeat split; reflexivity. Qed.

(** *** File failures *)

(** A write failure leaves the entry in memory and reports [False]. *)
Lemma add_translation_write_failure `{UnicodeDB}
    (text translation target_lang category : str) (confidence : Q)
    (st : DictionaryManager.state) :
  DictionaryManager.rejected text translation confidence = false ->
  DictionaryManager.write_file (DictionaryManager.filepath target_lang)
    (default [] (DictionaryManager._dictionaries
                   (DictionaryManager.upsert text translation target_lang category st)
                 !! target_lang))
    (DictionaryManager.upsert text translation target_lang category st) = None ->
  let r := DictionaryManager.add_translation text translation target_lang category
             confidence st in
  fst r = false /\
  exists d entries,
    DictionaryManager._dictionaries (snd r) !! target_lang = Some d /\
    OD.get category d = Some entries /\
    OD.get text entries = Some translation.
Proof.
  intros Hrej Hwrite. unfold DictionaryManager.add_translation.
  rewrite Hrej, Hwrite. cbn [fst snd]. split; [reflexivity|].
  unfold DictionaryManager.upsert, DictionaryManager.cache_dictionary.
  cbn [DictionaryManager._dictionaries]. rewrite lookup_insert_eq.
  eexists _, _. split; [reflexivity|].
  assert (Hset : forall (V : Type) (k : str) (v : V) (d : OD.t V),
             OD.get k (OD.set k v d) = Some v).
  { intros V k v d. induction d as [|[k' v'] d IH]; simpl.
    - unfold str_eqb. rewrite bool_decide_eq_true_2 by reflexivity. reflexivity.
    - destruct (str_eqb k k') eqn:E; simpl; rewrite ?E.
      + unfold str_eqb. rewrite bool_decide_eq_true_2 by reflexivity. reflexivity.
      + exact IH. }
  split; apply Hset.
Qed.

(** A Korean dictionary file that [json.load] rejects, nothing loaded yet. *)
Definition corrupt_state : DictionaryManager.state :=
  {| DictionaryManager._dictionaries := ∅;
     DictionaryManager.files :=
       {[ DictionaryManager.filepath (lit "ko") :=
            {| DictionaryManager.content := None;
               DictionaryManager.readable := true;
               DictionaryManager.writable := true |} ]};
     DictionaryManager.can_create := true |}.

(** C9: on a dictionary file that cannot be read, [get_dictionary] raises
    [KeyError] from its own [except] branch, and so does [get_translation]. *)
Theorem get_dictionary_raises_on_read_failure :
  fst (DictionaryManager.get_dictionary (lit "ko") corrupt_state) = Raise KeyError /\
  fst (DictionaryManager.get_translation (lit "Sara") (lit "ko") corrupt_state)
    = Raise KeyError.
Proof. vm_compute. split; reflexivity. Qed.

(** The same holds whenever the language is not loaded and the read fails. *)
Lemma get_dictionary_read_failure (lang_code : str) (st : DictionaryManager.state)
    (f : DictionaryManager.file) :
  DictionaryManager._dictionaries st !! lang_code = None ->
  DictionaryManager.files st !! DictionaryManager.filepath lang_code = Some f ->
  DictionaryManager.readable f && bool_decide (is_Some (DictionaryManager.content f)) = false ->
  DictionaryManager.get_dictionary lang_code st = (Raise KeyError, st).
Proof.
  intros Hmem Hfile Hbad. unfold DictionaryManager.get_dictionary.
  rewrite Hmem. unfold DictionaryManager.path_exists.
  rewrite bool_decide_eq_true_2 by (rewrite Hfile; eauto). cbn [negb].
  unfold DictionaryManager.read_file. rewrite Hfile, Hmem.
  destruct (DictionaryManager.readable f); [|reflexivity].
  destruct (DictionaryManager.content f); [|reflexivity].
  rewrite bool_decide_eq_true_2 in Hbad by eauto. discriminate.
Qed.

(** ** The translation cache *)
Section CacheFacts.
Variable settings : Settings.

Lemma set_length {V} (k : str) (v : V) (c : OD.t V) :
  (List.length (OD.set k v c) <= S (List.length c))%nat.
Proof.
  induction c as [|[k' v'] c IH]; simpl; [lia|].
  destruct (str_eqb k k'); simpl; lia.
Qed.

(** Popping the first [n] keys in order removes the first [n] entries. *)
Lemma pop_all_take (n : nat) (c : OD.t pyval) :
  TranslateService.pop_all (take n (OD.keys c)) c = drop n c.
Proof.
  revert n. induction c as [|[k v] c IH]; intros [|n]; try reflexivity.
  cbn [OD.keys List.map take fst TranslateService.pop_all fold_left OD.pop drop].
  unfold str_eqb. rewrite bool_decide_eq_true_2 by reflexivity. apply IH.
Qed.

(** The store of the model path keeps a cache of at most 1000 entries within
    that bound. *)
Lemma store_translation_bounded (key : str) (translated_text : pyval) (c : OD.t pyval) :
  (len c <= 1000)%Z ->
  (len (TranslateService.store_translation settings key translated_text c) <= 1000)%Z.
Proof.
  intros Hc. unfold TranslateService.store_translation.
  destruct (ENABLE_CACHE settings); [|exact Hc].
  pose proof (set_length key translated_text c) as Hs.
  destruct (len (OD.set key translated_text c) >? 1000)%Z eqn:E.
  - rewrite pop_all_take. unfold len in *. rewrite length_drop. lia.
  - lia.
Qed.
End CacheFacts.

(** A cache of 1000 entries. *)
Definition full_cache : OD.t pyval :=
  List.map (fun n => (TranslateService.cache_key (lit "en") (lit "ko") [N.of_nat n],
                      VStr [63]))
           (seq 0 1000).

(** The process with that cache and the dictionary of names. *)
Definition full_cache_world : world :=
  {| backend := fun _ => ChatException [];
     deadline := fun _ => false;
     chat_calls := 0;
     translation_cache := full_cache;
     DICTIONARY := names_state;
     HISTORY := TranslationHistory.empty;
     _evaluation_history := ∅;
     log := [] |}.

(** C4: a dictionary hit stores its answer without evicting: from a cache of
    1000 entries, [translate_text("en", "ko", "Sara")] leaves 1001. *)
Theorem translate_text_dictionary_hit_overflows :
  let r := TranslateService.translate_text sample_settings (Some (lit "en")) (lit "ko")
             (lit "Sara") [] full_cache_world in
  fst r = Ok (VStr sara_ko) /\
  len (translation_cache full_cache_world) = 1000%Z /\
  len (translation_cache (snd r)) = 1001%Z /\
  chat_calls (snd r) = 0%nat.
Proof. vm_compute. repeat split; reflexivity. Qed.

(** ** The entry point *)
Section TranslateFacts.
Context `{UnicodeDB}.
Variable settings : Settings.

(** The two short cuts of [ConsistentTranslator.translate] leave the process
    untouched. *)
Lemma translate_short_circuits (text source_lang target_lang now : str) (w : world) :
  truthy source_lang = true ->
  (source_lang = target_lang ->
   ConsistentTranslator.translate settings text (Some source_lang) target_lang now w
   = (Ok (VStr text), w)) /\
  (source_lang <> target_lang -> strip text = [] ->
   ConsistentTranslator.translate settings text (Some source_lang) target_lang now w
   = (Ok (VStr []), w)).
Proof.
  intros Hs. destruct source_lang as [|c s]; [discriminate|].
  unfold ConsistentTranslator.translate, str_eqb. split.
  - intros <-. rewrite bool_decide_eq_true_2 by reflexivity. reflexivity.
  - intros Hne Hblank. rewrite bool_decide_eq_false_2 by exact Hne.
    rewrite Hblank. rewrite (bool_decide_eq_true_2 ([] = [])) by reflexivity.
    rewrite orb_true_r. reflexivity.
Qed.

(** C6: without a source language [ConsistentTranslator.translate] raises,
    whatever the text and the target, while [translate_text] reads the same
    request as one from ["auto"]. *)
Theorem translate_rejects_absent_source (text target_lang now : str) (w : world) :
  ConsistentTranslator.translate settings text None target_lang now w
    = (Raise (PlainException "source_lang is required"), w) /\
  ConsistentTranslator.translate settings text (Some []) target_lang now w
    = (Raise (PlainException "source_lang is required"), w) /\
  TranslateService.translate_text settings None target_lang text now w
    = TranslateService.translate_text settings (Some (lit "auto")) target_lang text now w.
Proof. repeat split. Qed.
End TranslateFacts.

(** * Further properties *)

(** ** Ordered dictionaries *)
Section ODFacts.
Context {V : Type}.

Lemma str_eqb_refl (k : str) : str_eqb k k = true.
Proof. unfold str_eqb. apply bool_decide_eq_true_2. reflexivity. Qed.

Lemma str_eqb_neq (k k' : str) : k <> k' -> str_eqb k k' = false.
Proof. unfold str_eqb. apply bool_decide_eq_false_2. Qed.

Lemma str_eqb_eq (k k' : str) : str_eqb k k' = true -> k = k'.
Proof. unfold str_eqb. apply bool_decide_eq_true_1. Qed.

Lemma get_set_eq (k : str) (v : V) (d : OD.t V) : OD.get k (OD.set k v d) = Some v.
Proof.
  induction d as [|[k' v'] d IH]; simpl; [rewrite str_eqb_refl; reflexivity|].
  destruct (str_eqb k k') eqn:E; simpl; [rewrite str_eqb_refl | rewrite E]; auto.
Qed.

Lemma get_set_ne (k k' : str) (v : V) (d : OD.t V) :
  k <> k' -> OD.get k' (OD.set k v d) = OD.get k' d.
Proof.
  intros Hne. induction d as [|[k0 v0] d IH]; simpl.
  - rewrite str_eqb_neq by congruence. reflexivity.
  - destruct (str_eqb k k0) eqn:E; simpl.
    + apply str_eqb_eq in E. subst k0.
      rewrite !(str_eqb_neq k' k) by congruence. reflexivity.
    + destruct (str_eqb k' k0); [reflexivity | exact IH].
Qed.

(** A fresh key goes to the end. *)
Lemma set_fresh (k : str) (v : V) (d : OD.t V) :
  OD.get k d = None -> OD.set k v d = d ++ [(k, v)].
Proof.
  induction d as [|[k' v'] d IH]; simpl; [reflexivity|].
  destruct (str_eqb k k'); [discriminate|]. intros Hd. rewrite (IH Hd). reflexivity.
Qed.

Lemma get_drop_None (k : str) (n : nat) (d : OD.t V) :
  OD.get k d = None -> OD.get k (drop n d) = None.
Proof.
  revert n. induction d as [|[k' v'] d IH]; intros [|n]; simpl; auto.
  destruct (str_eqb k k'); [discriminate | apply IH].
Qed.

Lemma get_app_fresh (k : str) (v : V) (d : OD.t V) :
  OD.get k d = None -> OD.get k (d ++ [(k, v)]) = Some v.
Proof.
  induction d as [|[k' v'] d IH]; simpl; [rewrite str_eqb_refl; reflexivity|].
  destruct (str_eqb k k'); [discriminate | exact IH].
Qed.
End ODFacts.

(** ** More on the translation cache *)
Section CacheMore.
Variable settings : Settings.
Hypothesis cache_on : ENABLE_CACHE settings = true.

(** Once the store of the model path makes the cache exceed 1000 entries,
    what is left is the cache without its first 100 entries, in the same
    order. *)
Lemma store_translation_evicts_oldest (key : str) (translated_text : pyval)
    (c : OD.t pyval) :
  (1000 < len (OD.set key translated_text c))%Z ->
  TranslateService.store_translation settings key translated_text c
  = drop 100 (OD.set key translated_text c).
Proof.
  intros Hlen. unfold TranslateService.store_translation. rewrite cache_on.
  replace (len (OD.set key translated_text c) >? 1000)%Z with true
    by (symmetry; apply Z.gtb_lt; lia).
  apply pop_all_take.
Qed.

Lemma store_fresh_key_readable (key : str) (translated_text : pyval) (c : OD.t pyval) :
  OD.get key c = None ->
  OD.get key (TranslateService.store_translation settings key translated_text c)
  = Some translated_text.
Proof.
  intros Hfresh. unfold TranslateService.store_translation. rewrite cache_on.
  rewrite (set_fresh _ _ _ Hfresh).
  destruct (len (c ++ [(key, translated_text)]) >? 1000)%Z eqn:E.
  - rewrite pop_all_take. apply Z.gtb_lt in E. unfold len in E.
    rewrite length_app in E. simpl in E.
    rewrite drop_app_le by lia.
    apply get_app_fresh, get_drop_None, Hfresh.
  - apply get_app_fresh, Hfresh.
Qed.

(** A translation stored under a key that was not cached can be read back,
    eviction or not. *)
Theorem store_translation_readable (key : str) (translated_text : pyval)
    (c : OD.t pyval) :
  OD.get key c = None ->
  OD.get key (TranslateService.store_translation settings key translated_text c)
  = Some translated_text.
Proof. apply store_fresh_key_readable. Qed.
End CacheMore.

Lemma store_translation_bounded_witness :
  (len (TranslateService.store_translation sample_settings (lit "en:ko:hello")
          (VStr (lit "?")) full_cache) <= 1000)%Z.
Proof. apply (store_translation_bounded sample_settings). vm_compute. discriminate. Defined.

Lemma store_translation_evicts_oldest_witness :
  TranslateService.store_translation sample_settings (lit "en:ko:hello") (VStr (lit "?"))
    full_cache
  = drop 100 (OD.set (lit "en:ko:hello") (VStr (lit "?")) full_cache).
Proof.
  apply (store_translation_evicts_oldest sample_settings); [reflexivity|].
  vm_compute. reflexivity.
Defined.

Lemma store_translation_readable_witness :
  OD.get (lit "en:ko:hello")
    (TranslateService.store_translation sample_settings (lit "en:ko:hello")
       (VStr (lit "?")) full_cache)
  = Some (VStr (lit "?")).
Proof.
  apply (store_translation_readable sample_settings); [reflexivity|].
  vm_compute. reflexivity.
Defined.

(** ** What the evaluator leaves alone *)

(** The cache, the history and the dictionary are the same in both worlds. *)
Definition same_stores (w w' : world) : Prop :=
  translation_cache w' = translation_cache w /\
  HISTORY w' = HISTORY w /\
  DICTIONARY w' = DICTIONARY w.

Lemma same_stores_refl (w : world) : same_stores w w.
Proof. repeat split. Qed.

Lemma same_stores_trans (w1 w2 w3 : world) :
  same_stores w1 w2 -> same_stores w2 w3 -> same_stores w1 w3.
Proof. intros (? & ? & ?) (? & ? & ?). repeat split; congruence. Qed.

Lemma chat_same_stores (guarded : bool) (w : world) : same_stores w (snd (chat guarded w)).
Proof. unfold chat. destruct (guarded && _); repeat split. Qed.

Lemma evaluate_translation_same_stores (s : str) (t : pyval) (w : world) :
  same_stores w (snd (TranslationEvaluator.evaluate_translation s t w)).
Proof.
  unfold TranslationEvaluator.evaluate_translation.
  destruct (_ || _); [apply same_stores_refl|].
  destruct (str_is s t); [apply same_stores_refl|].
  pose proof (chat_same_stores true w) as Hc.
  destruct (chat true w) as [[[p|msg|msg]|] w1]; cbn [snd] in *; try exact Hc.
  destruct (p_score p); exact Hc.
Qed.

Lemma improve_translation_same_stores (s : str) (t : pyval) (fb : str) wm (w : world) :
  same_stores w (snd (TranslationEvaluator.improve_translation s t fb wm w)).
Proof.
  unfold TranslationEvaluator.improve_translation.
  destruct t as [t|p]; [|apply same_stores_refl].
  pose proof (chat_same_stores true w) as Hc.
  destruct (chat true w) as [[[p|msg|msg]|] w1]; cbn [snd] in *; try exact Hc.
  destruct (negb _); exact Hc.
Qed.

Section StoreFrames.
Variable settings : Settings.

Lemma improvement_loop_same_stores (text : str) (fuel : nat) :
  forall (a : Z) (ls : TranslateService.loop_state) (w : world),
  same_stores w (snd (TranslateService.improvement_loop settings text fuel a ls w)).
Proof.
  induction fuel as [|fuel IH]; intros a ls w; [apply same_stores_refl|].
  cbn [TranslateService.improvement_loop].
  set (w1 := emit (PrintAttempt (a + 1)) w).
  assert (H1 : same_stores w w1) by repeat split.
  pose proof (improve_translation_same_stores text
                (TranslateService.current_translation ls) (TranslateService.feedback ls)
                (TranslateService.word_mapping ls) w1) as H2.
  destruct (TranslationEvaluator.improve_translation _ _ _ _ w1)
    as [[[improved wm]|] w2]; cbn [snd] in H2.
  - destruct (str_is improved _); [exact (same_stores_trans _ _ _ H1 H2)|].
    cbv zeta.
    pose proof (evaluate_translation_same_stores text (VStr improved) w2) as H3.
    destruct (TranslationEvaluator.evaluate_translation text (VStr improved) w2)
      as [[[s fb]|] w3]; cbn [snd] in H3.
    + assert (H4 : same_stores w (emit (LogEvaluation (VStr improved) s) w3)).
      { apply (same_stores_trans _ _ _ H1), (same_stores_trans _ _ _ H2).
        destruct H3 as (? & ? & ?). repeat split; assumption. }
      destruct (s >=? QUALITY_THRESHOLD settings)%Z; [exact H4|].
      exact (same_stores_trans _ _ _ H4 (IH _ _ _)).
    + apply (same_stores_trans _ _ _ H1), (same_stores_trans _ _ _ H2).
      exact (same_stores_trans _ _ _ H3 (IH _ _ _)).
  - apply (same_stores_trans _ _ _ H1). exact (same_stores_trans _ _ _ H2 (IH _ _ _)).
Qed.

Lemma translate_evaluator_same_stores (text : str) (translated_text : pyval) wm
    (w : world) :
  same_stores w
    (snd (TranslateService.translate_evaluator settings text translated_text wm w)).
Proof.
  unfold TranslateService.translate_evaluator.
  pose proof (evaluate_translation_same_stores text translated_text w) as H1.
  destruct (TranslationEvaluator.evaluate_translation text translated_text w)
    as [[[s fb]|] w1]; cbn [snd] in H1.
  - assert (H2 : same_stores w (emit (LogEvaluation translated_text s) w1)).
    { destruct H1 as (? & ? & ?). repeat split; assumption. }
    destruct (s <? QUALITY_THRESHOLD settings)%Z; [|exact H2].
    match goal with
    | |- context [TranslateService.improvement_loop settings text ?f ?a ?ls ?w'] =>
        pose proof (improvement_loop_same_stores text f a ls w') as H3;
        destruct (TranslateService.improvement_loop settings text f a ls w') as [ls1 w2]
    end.
    exact (same_stores_trans _ _ _ H2 H3).
  - destruct H1 as (? & ? & ?). repeat split; assumption.
Qed.
End StoreFrames.

(** ** Requests and the cache *)
Section RequestFacts.
Context `{UnicodeDB}.
Variable settings : Settings.

(** The model path either stores its answer in the cache it found, or
    raises with cache and history as they were. *)
Lemma translate_with_model_cache (sl tl text now : str) (w : world) :
  match TranslateService.translate_with_model settings sl tl text now w with
  | (Ok t, w') =>
      translation_cache w'
      = TranslateService.store_translation settings
          (TranslateService.cache_key sl tl text) t (translation_cache w)
  | (Raise _, w') =>
      translation_cache w' = translation_cache w /\ HISTORY w' = HISTORY w
  end.
Proof.
  unfold TranslateService.translate_with_model.
  set (loaded := if ENABLE_DICTIONARY settings then _ else _).
  assert (Hl : translation_cache (snd loaded) = translation_cache w /\
               HISTORY (snd loaded) = HISTORY w).
  { subst loaded. destruct (ENABLE_DICTIONARY settings); [|split; reflexivity].
    destruct (DictionaryManager.get_dictionary tl (DICTIONARY w)); split; reflexivity. }
  destruct loaded as [[[]|e] w0]; cbn [snd] in Hl; [|exact Hl].
  destruct Hl as [Hc Hh].
  pose proof (chat_same_stores false w0) as (Hc1 & Hh1 & _).
  destruct (chat false w0) as [[[p|msg|msg]|] w1]; cbn [snd] in Hc1, Hh1;
    try (split; cbn; congruence).
  cbv zeta. destruct (negb (vtruthy _)); [split; cbn; congruence|].
  set (ev := if _ && _ && _ && _ then _ else _).
  assert (He : translation_cache (snd ev) = translation_cache w1).
  { subst ev. destruct (_ && _ && _ && _); [|reflexivity].
    apply translate_evaluator_same_stores. }
  destruct ev as [[t wm] w2]; cbn [snd] in He.
  destruct wm as [l|]; cbn; congruence.
Qed.

(** A request that raises leaves the cache and the history as they were. *)
Theorem translate_text_failure_leaves_stores (source_lang : option str)
    (target_lang text now : str) (w w' : world) (e : exn) :
  TranslateService.translate_text settings source_lang target_lang text now w
    = (Raise e, w') ->
  translation_cache w' = translation_cache w /\ HISTORY w' = HISTORY w.
Proof.
  unfold TranslateService.translate_text.
  set (sl := match source_lang with Some s => _ | None => _ end).
  destruct (_ || _); [discriminate|].
  destruct (if ENABLE_CACHE settings then _ else _); [discriminate|].
  destruct (ENABLE_DICTIONARY settings).
  - destruct (DictionaryManager.get_translation text target_lang (DICTIONARY w))
      as [[[d|]|e'] st].
    + discriminate.
    + pose proof (translate_with_model_cache sl target_lang text now
                    (set_dictionary st w)) as Hm.
      intros Heq. rewrite Heq in Hm. exact Hm.
    + intros [= _ <-]. split; reflexivity.
  - pose proof (translate_with_model_cache sl target_lang text now w) as Hm.
    intros Heq. rewrite Heq in Hm. exact Hm.
Qed.

(** The source language [translate_text] works with. *)
Definition effective_source (source_lang : option str) : str :=
  match source_lang with
  | Some s => if truthy s then s else lit "auto"
  | None => lit "auto"
  end.

Lemma translate_text_cache_hit (source_lang : option str)
    (target_lang text now : str) (w : world) (t : pyval) :
  ENABLE_CACHE settings = true ->
  negb (truthy text) || str_eqb (strip text) [] = false ->
  OD.get (TranslateService.cache_key (effective_source source_lang) target_lang text)
    (translation_cache w) = Some t ->
  TranslateService.translate_text settings source_lang target_lang text now w
  = (Ok t, emit (LogTranslation text t (lit " (cache)")) w).
Proof.
  intros Hon Hblank Hget. unfold TranslateService.translate_text.
  fold (effective_source source_lang). rewrite Hblank, Hon, Hget. reflexivity.
Qed.

(** With the cache on, a request that succeeded is answered from the cache
    when it is repeated: the same text, no backend call, and cache, history
    and dictionary untouched. *)
Theorem translate_text_repeat_served_from_cache (source_lang : option str)
    (target_lang text now now' : str) (w w' : world) (t : pyval) :
  ENABLE_CACHE settings = true ->
  TranslateService.translate_text settings source_lang target_lang text now w = (Ok t, w') ->
  let r := TranslateService.translate_text settings source_lang target_lang text now' w' in
  fst r = Ok t /\ chat_calls (snd r) = chat_calls w' /\ same_stores w' (snd r).
Proof.
  intros Hon Hfirst r. subst r.
  destruct (negb (truthy text) || str_eqb (strip text) []) eqn:Hblank.
  { unfold TranslateService.translate_text in *. rewrite Hblank in *.
    injection Hfirst as <- <-. repeat split. }
  assert (Hhit : OD.get (TranslateService.cache_key (effective_source source_lang)
                           target_lang text) (translation_cache w') = Some t).
  { unfold TranslateService.translate_text in Hfirst.
    fold (effective_source source_lang) in Hfirst.
    rewrite Hblank, Hon in Hfirst.
    set (key := TranslateService.cache_key _ target_lang text) in *.
    destruct (OD.get key (translation_cache w)) as [cached|] eqn:Hget.
    { injection Hfirst as <- <-. exact Hget. }
    destruct (ENABLE_DICTIONARY settings).
    - destruct (DictionaryManager.get_translation text target_lang (DICTIONARY w))
        as [[[d|]|e'] st]; [| |discriminate].
      + injection Hfirst as <- <-. cbn.
        unfold TranslateService.store_dictionary_translation. rewrite Hon.
        apply get_set_eq.
      + pose proof (translate_with_model_cache (effective_source source_lang) target_lang
                      text now (set_dictionary st w)) as Hm.
        rewrite Hfirst in Hm. rewrite Hm.
        apply (store_fresh_key_readable settings Hon). exact Hget.
    - pose proof (translate_with_model_cache (effective_source source_lang) target_lang
                    text now w) as Hm.
      rewrite Hfirst in Hm. rewrite Hm.
      apply (store_fresh_key_readable settings Hon). exact Hget. }
  rewrite (translate_text_cache_hit _ _ _ now' _ _ Hon Hblank Hhit).
  repeat split.
Qed.
End RequestFacts.

(** "안녕" *)
Definition hello_ko : str := [50504; 45397].

(** A backend that translates once; nothing cached, no dictionary file. *)
Definition hello_world : world := stub_world [translated hello_ko].

Lemma translate_text_repeat_served_from_cache_witness :
  let w' := snd (TranslateService.translate_text sample_settings (Some (lit "en"))
                   (lit "ko") (lit "hello") [] hello_world) in
  let r := TranslateService.translate_text sample_settings (Some (lit "en"))
             (lit "ko") (lit "hello") [] w' in
  fst r = Ok (VStr hello_ko) /\ chat_calls (snd r) = chat_calls w' /\
  same_stores w' (snd r).
Proof.
  apply (translate_text_repeat_served_from_cache sample_settings (Some (lit "en"))
           (lit "ko") (lit "hello") [] [] hello_world); [reflexivity|].
  rewrite (surjective_pairing (TranslateService.translate_text _ _ _ _ _ _)) at 1.
  f_equal; vm_compute; reflexivity.
Defined.

Lemma translate_text_failure_leaves_stores_witness :
  let w' := snd (TranslateService.translate_text sample_settings (Some (lit "en"))
                   (lit "ko") (lit "hello") [] (stub_world [RequestError []])) in
  translation_cache w' = translation_cache (stub_world [RequestError []]) /\
  HISTORY w' = HISTORY (stub_world [RequestError []]).
Proof.
  apply (translate_text_failure_leaves_stores sample_settings (Some (lit "en"))
           (lit "ko") (lit "hello") [] (stub_world [RequestError []]) _
           (HTTPException 503)).
  rewrite (surjective_pairing (TranslateService.translate_text _ _ _ _ _ _)) at 1.
  f_equal; vm_compute; reflexivity.
Defined.

(** ** More on the translation history *)
Section HistoryMore.
Import TranslationHistory.

(** Adding to one language pair leaves the history of every other pair
    alone. *)
Theorem add_history_other_pair (sl tl sl' tl' src : str) (tr : pyval) (now : str)
    (score : option Z) (fb : option str) (st : state) :
  pair_key sl tl <> pair_key sl' tl' ->
  get_history sl' tl' (add_history sl tl src tr score fb now st) = get_history sl' tl' st.
Proof.
  intros Hne. unfold get_history, add_history, _save_history. cbv zeta.
  destruct (disk_writable _) eqn:E; cbn [_history disk_writable] in *;
    rewrite lookup_insert_ne by exact Hne; reflexivity.
Qed.

Lemma add_history_last (sl tl src : str) (tr : pyval) (now : str)
    (score : option Z) (fb : option str) (st : state) :
  last (get_history sl tl (add_history sl tl src tr score fb now st))
  = Some {| source_text := src; translated_text := tr; quality_score := score;
            feedback := fb; timestamp := now |}.
Proof.
  set (r := {| source_text := src; translated_text := tr; quality_score := score;
               feedback := fb; timestamp := now |}).
  change (add_history sl tl src tr score fb now st) with (HistoryFacts.add_record sl tl r st).
  rewrite HistoryFacts.get_history_add_record.
  set (items := List.filter _ _).
  unfold last_n. rewrite drop_app_le by (rewrite length_app; simpl; lia).
  apply last_snoc.
Qed.

(** The record just added is the last one of its pair, whatever was there
    before. *)
Theorem add_history_newest_last (sl tl src : str) (tr : pyval) (now : str)
    (score : option Z) (fb : option str) (st : state) :
  last (get_history sl tl (add_history sl tl src tr score fb now st))
  = Some {| source_text := src; translated_text := tr; quality_score := score;
            feedback := fb; timestamp := now |}.
Proof. apply add_history_last. Qed.

(** When the history file can be written it holds the whole map after every
    [add_history], so that [initialize] reads back the state it left. *)
Theorem add_history_persisted (sl tl src : str) (tr : pyval) (now : str)
    (score : option Z) (fb : option str) (st : state) :
  disk_writable st = true ->
  initialize true (add_history sl tl src tr score fb now st)
  = add_history sl tl src tr score fb now st.
Proof.
  intros Hw. unfold add_history, _save_history. cbv zeta.
  cbn [disk_writable]. rewrite Hw. reflexivity.
Qed.

(** A history file that cannot be written changes nothing for the caller:
    the record is added in memory all the same and the file is left as it
    was. *)
Theorem add_history_write_failure (sl tl src : str) (tr : pyval) (now : str)
    (score : option Z) (fb : option str) (st : state) :
  disk_writable st = false ->
  let st' := add_history sl tl src tr score fb now st in
  disk st' = disk st /\
  last (get_history sl tl st')
  = Some {| source_text := src; translated_text := tr; quality_score := score;
            feedback := fb; timestamp := now |}.
Proof.
  intros Hw st'. split; [|apply add_history_last].
  subst st'. unfold add_history, _save_history. cbv zeta.
  cbn [disk_writable]. rewrite Hw. reflexivity.
Qed.
End HistoryMore.

(** ** The evaluation history *)
Section EvaluationHistoryFacts.
Import TranslationEvaluator.

Definition store_all (source_text : str) (es : list evaluation) (w : world) : world :=
  fold_left (fun w e => store_evaluation_history source_text e w) es w.

Lemma get_store_evaluation_history (s : str) (e : evaluation) (w : world) :
  get_evaluation_history s (store_evaluation_history s e w)
  = (if (len (get_evaluation_history s w) >=? 5)%Z
     then tail (get_evaluation_history s w) else get_evaluation_history s w) ++ [e].
Proof.
  unfold store_evaluation_history, get_evaluation_history at 1.
  cbn [_evaluation_history set_evaluation_history]. rewrite lookup_insert_eq. reflexivity.
Qed.

Lemma tail_drop {A} (k : nat) (l : list A) : tail (drop k l) = drop (S k) l.
Proof. revert k. induction l as [|a l IH]; intros [|k]; simpl; auto. Qed.

(** For a source text without evaluations yet, the evaluations kept are the
    last five stored, oldest first. *)
Theorem evaluation_history_last_five (s : str) (es : list evaluation) (w : world) :
  get_evaluation_history s w = [] ->
  get_evaluation_history s (store_all s es w) = drop (List.length es - 5) es.
Proof.
  intros Hw. induction es as [|e es IH] using rev_ind; [exact Hw|].
  unfold store_all in *. rewrite fold_left_app. cbn [fold_left].
  rewrite get_store_evaluation_history, IH.
  rewrite length_app. cbn [List.length].
  destruct (len (drop (List.length es - 5) es) >=? 5)%Z eqn:E.
  - apply Z.geb_le in E. unfold len in E. rewrite length_drop in E.
    rewrite tail_drop.
    replace (List.length es + 1 - 5)%nat with (S (List.length es - 5)) by lia.
    rewrite drop_app_le by lia. reflexivity.
  - assert (Hlt : (List.length es < 5)%nat).
    { destruct (Z.geb_spec (len (drop (List.length es - 5) es)) 5) as [|Hlt];
        [discriminate|].
      unfold len in Hlt. rewrite length_drop in Hlt. lia. }
    replace (List.length es - 5)%nat with 0%nat by lia.
    replace (List.length es + 1 - 5)%nat with 0%nat by lia. reflexivity.
Qed.
End EvaluationHistoryFacts.

Lemma add_history_other_pair_witness :
  TranslationHistory.get_history (lit "en") (lit "ja")
    (TranslationHistory.add_history (lit "en") (lit "ko") (lit "hello") (VStr hello_ko)
       None None [] TranslationHistory.empty)
  = TranslationHistory.get_history (lit "en") (lit "ja") TranslationHistory.empty.
Proof.
  apply (add_history_other_pair (lit "en") (lit "ko") (lit "en") (lit "ja")).
  vm_compute. discriminate.
Defined.

Lemma add_history_persisted_witness :
  TranslationHistory.initialize true
    (TranslationHistory.add_history (lit "en") (lit "ko") (lit "hello") (VStr hello_ko)
       None None [] TranslationHistory.empty)
  = TranslationHistory.add_history (lit "en") (lit "ko") (lit "hello") (VStr hello_ko)
      None None [] TranslationHistory.empty.
Proof. apply add_history_persisted. reflexivity. Defined.

(** No history yet and a history file that cannot be written. *)
Definition read_only_history : TranslationHistory.state :=
  {| TranslationHistory._history := ∅; TranslationHistory.disk := None;
     TranslationHistory.disk_writable := false |}.

Lemma add_history_write_failure_witness :
  let st' := TranslationHistory.add_history (lit "en") (lit "ko") (lit "hello") (VStr hello_ko)
               None None [] read_only_history in
  TranslationHistory.disk st' = TranslationHistory.disk read_only_history /\
  last (TranslationHistory.get_history (lit "en") (lit "ko") st')
  = Some {| TranslationHistory.source_text := lit "hello";
            TranslationHistory.translated_text := VStr hello_ko;
            TranslationHistory.quality_score := None;
            TranslationHistory.feedback := None;
            TranslationHistory.timestamp := [] |}.
Proof.
  apply (add_history_write_failure (lit "en") (lit "ko") (lit "hello") (VStr hello_ko) []
           None None read_only_history).
  reflexivity.
Defined.

Definition sample_evaluation (z : Z) : evaluation :=
  {| ev_score := z; ev_feedback := []; ev_translated_text := VStr hello_ko |}.

Lemma evaluation_history_last_five_witness :
  TranslationEvaluator.get_evaluation_history (lit "hello")
    (store_all (lit "hello") (List.map sample_evaluation [10; 20; 30; 40; 50; 60; 70]%Z)
       (stub_world []))
  = List.map sample_evaluation [30; 40; 50; 60; 70]%Z.
Proof.
  apply (evaluation_history_last_five (lit "hello")
           (List.map sample_evaluation [10; 20; 30; 40; 50; 60; 70]%Z) (stub_world [])).
  reflexivity.
Defined.

(** ** More on the dictionary *)
Section DictionaryMore.
Import DictionaryManager.

(** The translation stored in memory for a term of a category of a
    language. *)
Definition lookup_term (lang category text : str) (st : state) : option str :=
  match _dictionaries st !! lang with
  | Some d =>
      match OD.get category d with
      | Some entries => OD.get text entries
      | None => None
      end
  | None => None
  end.

Lemma write_file_dictionaries (path : str) (d : dictionary) (st st' : state) :
  write_file path d st = Some st' -> _dictionaries st' = _dictionaries st.
Proof.
  unfold write_file. destruct (files st !! path) as [f|].
  - destruct (writable f); [|discriminate]. intros [= <-]. reflexivity.
  - destruct (can_create st); [|discriminate]. intros [= <-]. reflexivity.
Qed.

(** [get_dictionary] answers from memory once a language is loaded, and
    leaves the state it reached fixed. *)
Theorem get_dictionary_cached (lang_code : str) (st st' : state) (d : dictionary) :
  get_dictionary lang_code st = (Ok d, st') ->
  get_dictionary lang_code st' = (Ok d, st').
Proof.
  unfold get_dictionary at 1.
  destruct (_dictionaries st !! lang_code) as [d0|] eqn:Hm.
  - intros [= <- <-]. unfold get_dictionary. rewrite Hm. reflexivity.
  - cbv zeta. set (st1 := if negb _ then _ else st).
    destruct (read_file (filepath lang_code) st1) as [tr|].
    + intros [= <- <-]. unfold get_dictionary, cache_dictionary.
      cbn [_dictionaries]. rewrite lookup_insert_eq. reflexivity.
    + destruct (_dictionaries st1 !! lang_code) as [d1|] eqn:Hm1; [|discriminate].
      intros [= <- <-]. unfold get_dictionary. rewrite Hm1. reflexivity.
Qed.

(** The only exception [get_dictionary] raises is [KeyError], only for a
    language that is not loaded, and the loaded dictionaries are then left
    as they were. *)
Theorem get_dictionary_raises_only_KeyError (lang_code : str) (st st' : state) (e : exn) :
  get_dictionary lang_code st = (Raise e, st') ->
  e = KeyError /\ _dictionaries st !! lang_code = None /\
  _dictionaries st' = _dictionaries st.
Proof.
  unfold get_dictionary.
  destruct (_dictionaries st !! lang_code) as [d0|] eqn:Hm; [discriminate|].
  cbv zeta. set (st1 := if negb _ then _ else st).
  assert (H1 : _dictionaries st1 = _dictionaries st).
  { subst st1. destruct (negb _); [|reflexivity].
    unfold _create_default_dictionary.
    destruct (write_file _ _ st) as [st2|] eqn:Hw; [|reflexivity].
    exact (write_file_dictionaries _ _ _ _ Hw). }
  destruct (read_file (filepath lang_code) st1); [discriminate|].
  destruct (_dictionaries st1 !! lang_code); [discriminate|].
  intros [= <- <-]. auto.
Qed.

Section WithDB.
Context `{UnicodeDB}.

(** Looking up a translation or the prompt references in a language that is
    loaded changes nothing: neither the loaded dictionaries nor the files. *)
Theorem lookup_is_read_only (text lang : str) (st : state) (d : dictionary) :
  _dictionaries st !! lang = Some d ->
  snd (get_translation text lang st) = st /\
  snd (get_prompt_references text lang st) = st.
Proof.
  intros Hm. unfold get_translation, get_prompt_references, get_dictionary.
  rewrite Hm. split.
  - destruct (_ || _); [reflexivity|]. destruct (_ && _); [reflexivity|].
    destruct d; [reflexivity|]. destruct (exact_match _ _ _); reflexivity.
  - destruct (_ || _); reflexivity.
Qed.

Lemma upsert_lookup (text translation lang category : str) (st : state) :
  lookup_term lang category text (upsert text translation lang category st)
  = Some translation.
Proof.
  unfold lookup_term, upsert, cache_dictionary. cbn [_dictionaries].
  rewrite lookup_insert_eq, get_set_eq. apply get_set_eq.
Qed.

Lemma add_translation_dictionaries (text translation lang category : str)
    (confidence : Q) (st : state) :
  _dictionaries (snd (add_translation text translation lang category confidence st))
  = if rejected text translation confidence then _dictionaries st
    else _dictionaries (upsert text translation lang category st).
Proof.
  unfold add_translation. destruct (rejected _ _ _); [reflexivity|].
  destruct (write_file _ _ _) as [st'|] eqn:Hw; [|reflexivity].
  exact (write_file_dictionaries _ _ _ _ Hw).
Qed.

(** The translation a dictionary holds for a term of a category. *)
Definition term_of (category text : str) (d : dictionary) : option str :=
  match OD.get category d with
  | Some entries => OD.get text entries
  | None => None
  end.

Lemma term_of_default (category text : str) (d : dictionary) :
  OD.get text (default [] (OD.get category d)) = term_of category text d.
Proof. unfold term_of. destruct (OD.get category d); reflexivity. Qed.

Lemma filepath_inj (lang lang' : str) : filepath lang' = filepath lang -> lang' = lang.
Proof. unfold filepath. apply app_inv_tail. Qed.

(** [dictionary[category][text] = translation], with the category created
    when it is missing (lines 306-311). *)
Definition with_term (text translation category : str) (d : dictionary) : dictionary :=
  OD.set category (OD.set text translation (default [] (OD.get category d))) d.

Lemma with_term_terms (text translation category : str) (d : dictionary) :
  term_of category text (with_term text translation category d) = Some translation /\
  (forall category' text', (category', text') <> (category, text) ->
     term_of category' text' (with_term text translation category d)
     = term_of category' text' d).
Proof.
  unfold term_of, with_term. split; [rewrite get_set_eq; apply get_set_eq|].
  intros category' text' Hne.
  destruct (decide (category = category')) as [<-|Hcat].
  - rewrite get_set_eq.
    assert (Ht : text <> text') by congruence.
    rewrite (get_set_ne _ _ _ _ Ht).
    exact (term_of_default category text' d).
  - rewrite (get_set_ne _ _ _ _ Hcat). reflexivity.
Qed.

(** What a successful [add_translation] leaves of a language.  The
    dictionary it starts from is the loaded one, or the empty one for a
    language that is not loaded, whatever its file holds; the result is in
    memory and in the file, and no other language is touched, in memory or
    on disk. *)
Lemma add_translation_result (text translation lang category : str)
    (confidence : Q) (st : state) (loaded : option dictionary) :
  _dictionaries st !! lang = loaded ->
  fst (add_translation text translation lang category confidence st) = true ->
  let d' := with_term text translation category (default [] loaded) in
  let st' := snd (add_translation text translation lang category confidence st) in
  _dictionaries st' !! lang = Some d' /\
  content <$> files st' !! filepath lang = Some (Some d') /\
  (forall lang', lang' <> lang ->
     _dictionaries st' !! lang' = _dictionaries st !! lang' /\
     files st' !! filepath lang' = files st !! filepath lang').
Proof.
  intros <-.
  unfold add_translation. destruct (rejected _ _ _); [discriminate|]. cbv zeta.
  set (d' := with_term text translation category (default [] (_dictionaries st !! lang))).
  assert (Hu : upsert text translation lang category st
               = cache_dictionary lang d' st) by reflexivity.
  rewrite Hu.
  assert (Hd' : default [] (_dictionaries (cache_dictionary lang d' st) !! lang) = d').
  { unfold cache_dictionary. cbn [_dictionaries]. rewrite lookup_insert_eq. reflexivity. }
  rewrite Hd'.
  destruct (write_file (filepath lang) d' (cache_dictionary lang d' st)) as [st'|] eqn:Hw;
    [|discriminate].
  intros _. cbn [snd].
  assert (Hst' : _dictionaries st' = <[lang := d']> (_dictionaries st) /\
                 exists f, files st' = <[filepath lang := f]> (files st) /\
                           content f = Some d').
  { unfold write_file in Hw. cbn [files cache_dictionary _dictionaries can_create] in Hw.
    destruct (files st !! filepath lang) as [f|].
    - destruct (writable f); [|discriminate]. injection Hw as <-.
      split; [reflexivity|]. eexists. split; reflexivity.
    - destruct (can_create st); [|discriminate]. injection Hw as <-.
      split; [reflexivity|]. eexists. split; reflexivity. }
  destruct Hst' as (Hm & f & Hf & Hc). rewrite Hm, Hf.
  split; [apply lookup_insert_eq|].
  split; [rewrite lookup_insert_eq; cbn; rewrite Hc; reflexivity|].
  intros lang' Hl. split.
  - apply lookup_insert_ne. congruence.
  - apply lookup_insert_ne. intros Hp. apply Hl.
    exact (filepath_inj _ _ (eq_sym Hp)).
Qed.

(** A successful [add_translation] to a language that is loaded leaves the
    same dictionary in memory and in the file of the language: the loaded
    one with the term set and every other term of every category as it was.
    Of the other languages neither the loaded dictionary nor the file
    changes. *)
Theorem add_translation_other_terms (text translation lang category : str)
    (confidence : Q) (st : state) (d : dictionary) :
  _dictionaries st !! lang = Some d ->
  fst (add_translation text translation lang category confidence st) = true ->
  let st' := snd (add_translation text translation lang category confidence st) in
  exists d',
    _dictionaries st' !! lang = Some d' /\
    content <$> files st' !! filepath lang = Some (Some d') /\
    term_of category text d' = Some translation /\
    (forall category' text', (category', text') <> (category, text) ->
       term_of category' text' d' = term_of category' text' d) /\
    (forall lang', lang' <> lang ->
       _dictionaries st' !! lang' = _dictionaries st !! lang' /\
       files st' !! filepath lang' = files st !! filepath lang').
Proof.
  intros Hd Hok.
  destruct (add_translation_result text translation lang category confidence st (Some d)
              Hd Hok) as (Hm & Hf & Hother).
  destruct (with_term_terms text translation category d) as [Hterm Hterms].
  exists (with_term text translation category d).
  split; [exact Hm|]. split; [exact Hf|]. split; [exact Hterm|].
  split; [exact Hterms | exact Hother].
Qed.

(** [add_translation] does not read the file of a language that is not
    loaded: it starts from the empty dictionary, and when it succeeds the
    file holds the new term and nothing else, whatever it held before. *)
Theorem add_translation_unloaded_overwrites (text translation lang category : str)
    (confidence : Q) (st : state) :
  _dictionaries st !! lang = None ->
  fst (add_translation text translation lang category confidence st) = true ->
  let st' := snd (add_translation text translation lang category confidence st) in
  _dictionaries st' !! lang = Some [ (category, [ (text, translation) ]) ] /\
  content <$> files st' !! filepath lang
  = Some (Some [ (category, [ (text, translation) ]) ]).
Proof.
  intros Hd Hok.
  destruct (add_translation_result text translation lang category confidence st None
              Hd Hok) as (Hm & Hf & _).
  split; [exact Hm | exact Hf].
Qed.

Lemma exact_match_app (text : str) (d : dictionary) (pre post : list str) :
  exact_match text d (pre ++ post)
  = match exact_match text d pre with
    | Some t => Some t
    | None => exact_match text d post
    end.
Proof.
  induction pre as [|c pre IH]; [reflexivity|]. cbn [exact_match app].
  destruct (OD.get c d) as [entries|]; [|exact IH].
  destruct (OD.get text entries); [reflexivity|].
  destruct (find_lower _ entries); [reflexivity | exact IH].
Qed.

(** A term that [add_translation] accepts under a category of the priority
    list is found by [get_translation] afterwards, provided no category of
    higher priority matches the text; the file write need not succeed. *)
Theorem add_translation_then_get (text translation lang category : str)
    (confidence : Q) (st : state) (pre post : list str) :
  rejected text translation confidence = false ->
  _priority_categories = pre ++ category :: post ->
  (forall d, _dictionaries (upsert text translation lang category st) !! lang = Some d ->
             exact_match text d pre = None) ->
  fst (get_translation text lang
         (snd (add_translation text translation lang category confidence st)))
  = Ok (Some translation).
Proof.
  intros Hrej Hprio Hpre.
  pose proof (add_translation_dictionaries text translation lang category confidence st)
    as Hd. rewrite Hrej in Hd.
  unfold rejected in Hrej.
  repeat (apply orb_false_elim in Hrej as [Hrej ?]).
  unfold get_translation.
  replace (negb (truthy text) || negb (truthy (strip text))) with false
    by (symmetry; apply orb_false_intro; assumption).
  replace (len text >? MAX_DIRECT_REPLACEMENT_LENGTH)%Z with false by congruence.
  cbn [andb]. unfold get_dictionary. rewrite Hd.
  pose proof (upsert_lookup text translation lang category st) as Hl.
  unfold lookup_term in Hl.
  destruct (_dictionaries (upsert text translation lang category st) !! lang)
    as [d|] eqn:Hm; [|discriminate].
  cbn [fst]. specialize (Hpre d eq_refl).
  destruct d as [|c0 d0]; [discriminate|].
  rewrite Hprio, exact_match_app, Hpre. cbn [exact_match].
  destruct (OD.get category (c0 :: d0)) as [entries|]; [|discriminate].
  rewrite Hl. reflexivity.
Qed.

Lemma set_nonempty {V} (k : str) (v : V) (d : OD.t V) : OD.set k v d <> [].
Proof.
  destruct d as [|[k' v'] d]; simpl; [discriminate|].
  destruct (str_eqb k k'); discriminate.
Qed.

(** What [add_translation] wrote is what [reload_dictionary] loads: after a
    successful [add_translation], reloading the language from its file gives
    back the very state, provided the file can be read. *)
Theorem add_translation_reload (text translation lang category : str)
    (confidence : Q) (st : state) :
  fst (add_translation text translation lang category confidence st) = true ->
  (forall f, files st !! filepath lang = Some f -> readable f = true) ->
  reload_dictionary lang (snd (add_translation text translation lang category confidence st))
  = (Ok true, snd (add_translation text translation lang category confidence st)).
Proof.
  unfold add_translation. destruct (rejected _ _ _); [discriminate|]. cbv zeta.
  set (stu := upsert text translation lang category st).
  assert (Hd : _dictionaries stu !! lang
               = Some (OD.set category
                         (OD.set text translation
                            (default [] (OD.get category (default [] (_dictionaries st !! lang)))))
                         (default [] (_dictionaries st !! lang)))).
  { subst stu. unfold upsert, cache_dictionary. cbn [_dictionaries].
    apply lookup_insert_eq. }
  match goal with |- context [default [] ?x] => destruct x as [d|] eqn:E end;
    [|pose proof (eq_trans (eq_sym E) Hd) as Hn; discriminate].
  assert (Hne : d <> []).
  { intros ->. pose proof (eq_trans (eq_sym E) Hd) as Hs.
    exact (set_nonempty _ _ _ (eq_sym (f_equal (default []) Hs))). }
  clear Hd. cbn [default from_option id].
  assert (Hfiles : files stu = files st) by reflexivity.
  destruct (write_file (filepath lang) d stu) as [st'|] eqn:Hw; [|discriminate].
  intros _ Hread. cbn [snd].
  assert (Hst' : exists r, st' = {| _dictionaries := _dictionaries stu;
                                    files := <[filepath lang :=
                                                 {| content := Some d; readable := r;
                                                    writable := true |}]> (files stu);
                                    can_create := can_create stu |} /\ r = true).
  { unfold write_file in Hw. destruct (files stu !! filepath lang) as [f|] eqn:Hf.
    - destruct (writable f); [|discriminate]. injection Hw as <-.
      exists (readable f). split; [reflexivity|]. apply Hread. rewrite <- Hfiles. exact Hf.
    - destruct (can_create stu); [|discriminate]. injection Hw as <-.
      exists true. split; reflexivity. }
  destruct Hst' as (r & -> & ->).
  unfold reload_dictionary, get_dictionary. cbn [_dictionaries files can_create].
  rewrite lookup_delete_eq. unfold path_exists. cbn [files].
  rewrite bool_decide_eq_true_2 by (rewrite lookup_insert_eq; eauto). cbn [negb].
  unfold read_file. cbn [files]. rewrite lookup_insert_eq. cbn [readable content].
  unfold cache_dictionary. cbn [_dictionaries files can_create].
  rewrite insert_delete_eq, (insert_id _ _ _ E).
  destruct d as [|c d']; [congruence | reflexivity].
Qed.
End WithDB.

(** *** Start-up *)

Lemma write_file_exists (path p : str) (d : dictionary) (st st' : state) :
  write_file path d st = Some st' -> path_exists p st = true -> path_exists p st' = true.
Proof.
  unfold write_file, path_exists. intros Hw Hp. apply bool_decide_eq_true in Hp.
  apply bool_decide_eq_true.
  destruct (files st !! path) as [f|];
    [destruct (writable f)|destruct (can_create st)]; try discriminate;
    injection Hw as <-; cbn [files];
    (destruct (decide (path = p)) as [->|Hne];
       [rewrite lookup_insert_eq; eauto | rewrite lookup_insert_ne by exact Hne; exact Hp]).
Qed.

(** A successful [get_dictionary] leaves the language loaded and forgets
    neither a loaded language nor a file. *)
Lemma get_dictionary_grows (lang : str) (st st' : state) (d : dictionary) :
  get_dictionary lang st = (Ok d, st') ->
  _dictionaries st' !! lang = Some d /\
  (forall l, is_Some (_dictionaries st !! l) -> is_Some (_dictionaries st' !! l)) /\
  (forall p, path_exists p st = true -> path_exists p st' = true).
Proof.
  unfold get_dictionary.
  destruct (_dictionaries st !! lang) as [d0|] eqn:Hm.
  { intros [= <- <-]. auto. }
  cbv zeta. set (st1 := if negb _ then _ else st).
  assert (H1 : _dictionaries st1 = _dictionaries st /\
               forall p, path_exists p st = true -> path_exists p st1 = true).
  { subst st1. destruct (negb _); [|auto].
    unfold _create_default_dictionary.
    destruct (write_file _ _ st) as [st2|] eqn:Hw; [|auto].
    split; [exact (write_file_dictionaries _ _ _ _ Hw)|].
    intros p. exact (write_file_exists _ p _ _ _ Hw). }
  destruct H1 as [H1 H2].
  destruct (read_file (filepath lang) st1) as [tr|].
  - intros [= <- <-]. unfold cache_dictionary. cbn [_dictionaries]. split; [|split].
    + apply lookup_insert_eq.
    + intros l Hl. rewrite <- H1 in Hl.
      destruct (decide (lang = l)) as [->|Hne];
        [rewrite lookup_insert_eq; eauto | rewrite lookup_insert_ne by exact Hne; exact Hl].
    + exact H2.
  - destruct (_dictionaries st1 !! lang) as [d1|] eqn:Hm1; [|discriminate].
    intros [= <- <-]. rewrite H1 in *. auto.
Qed.

(** When [initialize_dictionaries] returns, every supported language whose
    dictionary file was there is loaded. *)
Theorem initialize_dictionaries_loads (supported_languages : list str) (st st' : state)
    (lang : str) :
  initialize_dictionaries supported_languages st = (Ok tt, st') ->
  In lang supported_languages ->
  path_exists (filepath lang) st = true ->
  is_Some (_dictionaries st' !! lang).
Proof.
  intros Hinit Hin Hex.
  assert (Hgen : forall langs st st',
            initialize_dictionaries langs st = (Ok tt, st') ->
            (forall l, is_Some (_dictionaries st !! l) -> is_Some (_dictionaries st' !! l)) /\
            (forall l, In l langs -> path_exists (filepath l) st = true ->
                       is_Some (_dictionaries st' !! l))).
  { clear. induction langs as [|l0 langs IH]; intros st st'; cbn [initialize_dictionaries].
    - intros [= <-]. split; [auto | intros l []].
    - destruct (path_exists (filepath l0) st) eqn:E0.
      + destruct (get_dictionary l0 st) as [[d|e] st1] eqn:Hg; [|discriminate].
        intros Hrest. destruct (get_dictionary_grows _ _ _ _ Hg) as (Hl0 & Hmem & Hfile).
        destruct (IH _ _ Hrest) as [IH1 IH2]. split.
        * intros l Hl. apply IH1, Hmem, Hl.
        * intros l [<-|Hl] Hp; [apply IH1; rewrite Hl0; eauto|].
          apply IH2; [exact Hl | apply Hfile, Hp].
      + intros Hrest. destruct (IH _ _ Hrest) as [IH1 IH2]. split; [exact IH1|].
        intros l [<-|Hl] Hp; [congruence | apply IH2; assumption]. }
  exact (proj2 (Hgen _ _ _ Hinit) lang Hin Hex).
Qed.
End DictionaryMore.

Lemma get_dictionary_cached_witness :
  DictionaryManager.get_dictionary (lit "ko") names_state = (Ok names_dictionary, names_state).
Proof.
  apply (get_dictionary_cached (lit "ko") names_state names_state names_dictionary).
  vm_compute. reflexivity.
Defined.

Lemma get_dictionary_raises_only_KeyError_witness :
  KeyError = KeyError /\
  DictionaryManager._dictionaries corrupt_state !! lit "ko" = None /\
  DictionaryManager._dictionaries corrupt_state
  = DictionaryManager._dictionaries corrupt_state.
Proof.
  apply (get_dictionary_raises_only_KeyError (lit "ko") corrupt_state corrupt_state KeyError).
  vm_compute. reflexivity.
Defined.

Lemma lookup_is_read_only_witness :
  snd (DictionaryManager.get_translation (lit "Sara Kim") (lit "ko") names_state)
    = names_state /\
  snd (DictionaryManager.get_prompt_references (lit "Sara Kim") (lit "ko") names_state)
    = names_state.
Proof.
  apply (lookup_is_read_only (lit "Sara Kim") (lit "ko") names_state names_dictionary).
  reflexivity.
Defined.

(** "이" *)
Definition lee_ko : str := [51060].

Lemma add_translation_other_terms_witness :
  let st' := snd (DictionaryManager.add_translation (lit "Lee") lee_ko (lit "ko")
                    (lit "character_names") (9 # 10) names_state) in
  exists d',
    DictionaryManager._dictionaries st' !! lit "ko" = Some d' /\
    DictionaryManager.content <$>
      DictionaryManager.files st' !! DictionaryManager.filepath (lit "ko")
    = Some (Some d') /\
    term_of (lit "character_names") (lit "Lee") d' = Some lee_ko /\
    (forall category' text', (category', text') <> (lit "character_names", lit "Lee") ->
       term_of category' text' d' = term_of category' text' names_dictionary) /\
    (forall lang', lang' <> lit "ko" ->
       DictionaryManager._dictionaries st' !! lang'
       = DictionaryManager._dictionaries names_state !! lang' /\
       DictionaryManager.files st' !! DictionaryManager.filepath lang'
       = DictionaryManager.files names_state !! DictionaryManager.filepath lang').
Proof.
  apply (add_translation_other_terms (lit "Lee") lee_ko (lit "ko") (lit "character_names")
           (9 # 10) names_state names_dictionary).
  - reflexivity.
  - vm_compute. reflexivity.
Defined.

Lemma add_translation_then_get_witness :
  fst (DictionaryManager.get_translation (lit "Seoul") (lit "ko")
         (snd (DictionaryManager.add_translation (lit "Seoul") [49436; 50872] (lit "ko")
                 (lit "place_names") (9 # 10) names_state)))
  = Ok (Some [49436; 50872]).
Proof.
  apply (add_translation_then_get (lit "Seoul") [49436; 50872] (lit "ko")
           (lit "place_names") (9 # 10) names_state [lit "character_names"]
           [lit "custom_terms"; lit "ui"; lit "general"]).
  - vm_compute. reflexivity.
  - reflexivity.
  - intros d Hd. vm_compute in Hd. injection Hd as <-. vm_compute. reflexivity.
Defined.

Lemma add_translation_reload_witness :
  DictionaryManager.reload_dictionary (lit "ko")
    (snd (DictionaryManager.add_translation (lit "Seoul") [49436; 50872] (lit "ko")
            (lit "place_names") (9 # 10) names_state))
  = (Ok true,
     snd (DictionaryManager.add_translation (lit "Seoul") [49436; 50872] (lit "ko")
            (lit "place_names") (9 # 10) names_state)).
Proof.
  apply (add_translation_reload (lit "Seoul") [49436; 50872] (lit "ko")
           (lit "place_names") (9 # 10) names_state).
  - vm_compute. reflexivity.
  - intros f Hf. vm_compute in Hf. discriminate.
Defined.

(** Nothing loaded, a Korean dictionary file on disk. *)
Definition unloaded_state : DictionaryManager.state :=
  {| DictionaryManager._dictionaries := ∅;
     DictionaryManager.files :=
       {[ DictionaryManager.filepath (lit "ko") :=
            {| DictionaryManager.content := Some names_dictionary;
               DictionaryManager.readable := true;
               DictionaryManager.writable := true |} ]};
     DictionaryManager.can_create := true |}.

Lemma initialize_dictionaries_loads_witness :
  is_Some (DictionaryManager._dictionaries
             (snd (DictionaryManager.initialize_dictionaries [lit "en"; lit "ko"]
                     unloaded_state)) !! lit "ko").
Proof.
  apply (initialize_dictionaries_loads [lit "en"; lit "ko"] unloaded_state).
  - rewrite (surjective_pairing (DictionaryManager.initialize_dictionaries _ _)) at 1.
    f_equal; vm_compute; reflexivity.
  - right. left. reflexivity.
  - vm_compute. reflexivity.
Defined.

Lemma add_translation_unloaded_overwrites_witness :
  let st' := snd (DictionaryManager.add_translation (lit "Lee") lee_ko (lit "ko")
                    (lit "character_names") (9 # 10) unloaded_state) in
  DictionaryManager._dictionaries st' !! lit "ko"
  = Some [ (lit "character_names", [ (lit "Lee", lee_ko) ]) ] /\
  DictionaryManager.content <$>
    DictionaryManager.files st' !! DictionaryManager.filepath (lit "ko")
  = Some (Some [ (lit "character_names", [ (lit "Lee", lee_ko) ]) ]).
Proof.
  apply (add_translation_unloaded_overwrites (lit "Lee") lee_ko (lit "ko")
           (lit "character_names") (9 # 10) unloaded_state).
  - reflexivity.
  - vm_compute. reflexivity.
Defined.

(** The names the file held are gone: ["Kim"] is found before the call and
    no longer after it. *)
Example add_translation_unloaded_loses_terms :
  let st' := snd (DictionaryManager.add_translation (lit "Lee") lee_ko (lit "ko")
                    (lit "character_names") (9 # 10) unloaded_state) in
  fst (DictionaryManager.get_translation (lit "Kim") (lit "ko") unloaded_state)
  = Ok (Some kim_ko) /\
  fst (DictionaryManager.get_translation (lit "Kim") (lit "ko") st') = Ok None.
Proof. vm_compute. split; reflexivity. Qed.

(** ** More on evaluation and improvement *)

Lemma chat_calls_step (guarded : bool) (w : world) :
  chat_calls (snd (chat guarded w)) = S (chat_calls w).
Proof. unfold chat. destruct (guarded && _); reflexivity. Qed.

(** Whatever the backend replies, [evaluate_translation] makes at most one
    backend call and returns a score between 0 and 100; it returns nothing
    only when the enclosing [asyncio.wait_for] expires during that call. *)
Theorem evaluate_translation_score_range (source_text : str) (translated_text : pyval)
    (w : world) :
  let r := TranslationEvaluator.evaluate_translation source_text translated_text w in
  (chat_calls w <= chat_calls (snd r) <= S (chat_calls w))%nat /\
  match fst r with
  | Some (score, _) => (0 <= score <= 100)%Z
  | None => deadline w (chat_calls w) = true
  end.
Proof.
  unfold TranslationEvaluator.evaluate_translation.
  destruct (_ || _); [cbn; split; lia|].
  destruct (str_is _ _); [cbn; split; lia|].
  pose proof (chat_calls_step true w) as Hc.
  unfold chat in *. cbn [andb] in *.
  destruct (deadline w (chat_calls w)); cbn [fst snd] in *; [split; [lia | reflexivity]|].
  destruct (backend w (chat_calls w)) as [p|msg|msg]; cbn [fst snd]; try (split; cbn; lia).
  destruct (p_score p); cbn; split; lia.
Qed.

(** [improve_translation] makes exactly one backend call, and given a
    non-empty previous translation it never returns an empty one: an empty
    or failed reply gives the previous translation back. *)
Theorem improve_translation_never_empty (source_text previous_translation feedback : str)
    (wm : option (list DictionaryManager.WordMapping)) (w : world) :
  previous_translation <> [] ->
  let r := TranslationEvaluator.improve_translation source_text
             (VStr previous_translation) feedback wm w in
  chat_calls (snd r) = S (chat_calls w) /\
  match fst r with
  | Some (improved, _) => improved <> []
  | None => deadline w (chat_calls w) = true
  end.
Proof.
  intros Hprev. unfold TranslationEvaluator.improve_translation, chat. cbn [andb].
  destruct (deadline w (chat_calls w)); cbn [fst snd]; [split; reflexivity|].
  destruct (backend w (chat_calls w)) as [p|msg|msg]; cbn [fst snd];
    try (split; [reflexivity | exact Hprev]).
  destruct (p_translation p) eqn:E; cbn; split; try reflexivity; congruence.
Qed.

Section LoopBounds.
Variable settings : Settings.
Import TranslateService.

Lemma evaluate_translation_calls (s : str) (t : pyval) (w : world) :
  (chat_calls w <= chat_calls (snd (TranslationEvaluator.evaluate_translation s t w))
   <= S (chat_calls w))%nat.
Proof.
  unfold TranslationEvaluator.evaluate_translation.
  destruct (_ || _); [cbn; lia|]. destruct (str_is _ _); [cbn; lia|].
  pose proof (chat_calls_step true w) as Hc.
  destruct (chat true w) as [[[p|msg|msg]|] w1]; cbn [snd] in *; try (cbn; lia).
  destruct (p_score p); cbn; lia.
Qed.

Lemma improve_translation_text (s t fb : str) wm (w : world) :
  t <> [] ->
  match fst (TranslationEvaluator.improve_translation s (VStr t) fb wm w) with
  | Some (improved, _) => improved <> []
  | None => True
  end.
Proof.
  intros Hprev. unfold TranslationEvaluator.improve_translation.
  destruct (chat true w) as [[[p|msg|msg]|] w1]; cbn [fst]; try exact Hprev; [|exact I].
  destruct (p_translation p) eqn:E; cbn; congruence.
Qed.

(** One backend call, or none for a previous translation that is no
    string. *)
Lemma improve_translation_calls (s : str) (t : pyval) (fb : str) wm (w : world) :
  (chat_calls w
   <= chat_calls (snd (TranslationEvaluator.improve_translation s t fb wm w))
   <= S (chat_calls w))%nat.
Proof.
  unfold TranslationEvaluator.improve_translation.
  destruct t as [t|p0]; [|cbn; lia].
  pose proof (chat_calls_step true w) as Hc.
  destruct (chat true w) as [[[p|msg|msg]|] w1]; cbn [snd] in *; try (cbn; lia).
  destruct (negb _); cbn; lia.
Qed.

Lemma improvement_loop_calls (text : str) (fuel : nat) :
  forall (a : Z) (ls : loop_state) (w : world),
  (chat_calls w <= chat_calls (snd (improvement_loop settings text fuel a ls w))
   <= chat_calls w + 2 * fuel)%nat.
Proof.
  induction fuel as [|fuel IH]; intros a ls w; [cbn; lia|].
  cbn [improvement_loop].
  set (w1 := emit (PrintAttempt (a + 1)) w).
  pose proof (improve_translation_calls text (current_translation ls) (feedback ls)
                (word_mapping ls) w1) as H1.
  change (chat_calls w1) with (chat_calls w) in H1.
  destruct (TranslationEvaluator.improve_translation _ _ _ _ w1)
    as [[[improved wm]|] w2]; cbn [snd] in H1.
  - destruct (str_is improved _); [cbn [snd]; lia|]. cbv zeta.
    pose proof (evaluate_translation_calls text (VStr improved) w2) as H2.
    destruct (TranslationEvaluator.evaluate_translation text (VStr improved) w2)
      as [[[s fb]|] w3]; cbn [snd] in H2.
    + destruct (s >=? QUALITY_THRESHOLD settings)%Z; [cbn; lia|].
      match goal with
      | |- context [improvement_loop settings text fuel ?a' ?ls' ?w'] =>
          pose proof (IH a' ls' w') as H3
      end.
      cbn [chat_calls emit] in H3. lia.
    + match goal with
      | |- context [improvement_loop settings text fuel ?a' ?ls' ?w'] =>
          pose proof (IH a' ls' w') as H3
      end.
      lia.
  - pose proof (IH (a + 1)%Z ls w2) as H3. lia.
Qed.

(** One improvement loop costs at most one backend call for the first
    evaluation and two for every attempt allowed. *)
Theorem translate_evaluator_call_bound (text : str) (translated_text : pyval)
    (wm : option (list DictionaryManager.WordMapping)) (w : world) :
  let r := translate_evaluator settings text translated_text wm w in
  (chat_calls w <= chat_calls (snd r)
   <= chat_calls w + 1 + 2 * Z.to_nat (MAX_IMPROVEMENT_ATTEMPTS settings))%nat.
Proof.
  unfold translate_evaluator.
  pose proof (evaluate_translation_calls text translated_text w) as H1.
  destruct (TranslationEvaluator.evaluate_translation text translated_text w)
    as [[[s fb]|] w1]; cbn [snd] in H1; [|cbn; lia].
  destruct (s <? QUALITY_THRESHOLD settings)%Z; [|cbn; lia].
  match goal with
  | |- context [improvement_loop settings text ?f ?a' ?ls' ?w'] =>
      pose proof (improvement_loop_calls text f a' ls' w') as H2;
      destruct (improvement_loop settings text f a' ls' w') as [ls1 w2]
  end.
  cbn [chat_calls emit snd] in *. lia.
Qed.

(** A string that is not empty. *)
Definition non_empty (v : pyval) : Prop := exists t, v = VStr t /\ t <> [].

Lemma improvement_loop_non_empty (text : str) (fuel : nat) :
  forall (a : Z) (ls : loop_state) (w : world),
  non_empty (current_translation ls) -> non_empty (best_translation ls) ->
  non_empty (best_translation (fst (improvement_loop settings text fuel a ls w))).
Proof.
  induction fuel as [|fuel IH]; intros a ls w Hcur Hbest; [exact Hbest|].
  cbn [improvement_loop].
  set (w1 := emit (PrintAttempt (a + 1)) w).
  destruct Hcur as (c & Hc & Hcne).
  pose proof (improve_translation_text text c (feedback ls)
                (word_mapping ls) w1 Hcne) as H1.
  rewrite Hc.
  destruct (TranslationEvaluator.improve_translation _ _ _ _ w1)
    as [[[improved wm]|] w2]; cbn [fst] in H1;
    [|apply IH; [rewrite Hc; exists c; split; [reflexivity | exact Hcne] | exact Hbest]].
  cbn [current_translation best_translation].
  destruct (str_is improved _); [exact Hbest|]. cbv zeta.
  assert (Hi : non_empty (VStr improved)) by (exists improved; split; [reflexivity | exact H1]).
  destruct (TranslationEvaluator.evaluate_translation text (VStr improved) w2)
    as [[[s fb]|] w3];
    [|apply IH; [exists c; split; [reflexivity | exact Hcne] | exact Hbest]].
  cbn [current_translation best_translation best_score].
  assert (Hb : non_empty (if (s >? best_score ls)%Z then VStr improved
                          else best_translation ls))
    by (destruct (s >? best_score ls)%Z; assumption).
  destruct (s >=? QUALITY_THRESHOLD settings)%Z; [exact Hb|].
  apply IH; assumption.
Qed.

(** Given a non-empty translation, the improvement loop returns a non-empty
    one, whatever the backend replies. *)
Theorem translate_evaluator_non_empty (text translated_text : str)
    (wm : option (list DictionaryManager.WordMapping)) (w : world) :
  translated_text <> [] ->
  exists t,
    fst (fst (translate_evaluator settings text (VStr translated_text) wm w)) = VStr t /\
    t <> [].
Proof.
  intros Hne.
  assert (H0 : non_empty (VStr translated_text))
    by (exists translated_text; split; [reflexivity | exact Hne]).
  unfold translate_evaluator.
  destruct (TranslationEvaluator.evaluate_translation text (VStr translated_text) w)
    as [[[s fb]|] w1]; [|exact H0].
  destruct (s <? QUALITY_THRESHOLD settings)%Z; [|exact H0].
  match goal with
  | |- context [improvement_loop settings text ?f ?a' ?ls' ?w'] =>
      pose proof (improvement_loop_non_empty text f a' ls' w' H0 H0) as H2;
      destruct (improvement_loop settings text f a' ls' w') as [ls1 w2]
  end.
  exact H2.
Qed.
End LoopBounds.

(** ** Language names *)
Section LanguageNameFacts.
Context `{UnicodeDB}.
Import LanguageUtils.

(** The display name does not depend on whether the code was normalised
    before. *)
Theorem get_language_name_normalized (x : str) :
  get_language_name (normalize_language_code x) = get_language_name x.
Proof.
  unfold get_language_name. f_equal. f_equal.
  unfold normalize_language_code at 2 3.
  destruct (truthy x); cbn [negb]; [|reflexivity].
  destruct (OD.get (strip (py_lower x)) code_mapping) as [v|] eqn:Hget.
  - exact (normalize_mapped _ _ Hget).
  - assert (Hn : normalize_language_code (strip (py_lower x)) = strip (py_lower x))
      by (apply normalize_fixed; [apply lower_strip_fixed | exact Hget]).
    destruct (_ && _); exact Hn.
Qed.

Lemma normalize_alias (alias code : str) :
  Forall (fun c => c < 128) alias -> alias <> [] ->
  strip (List.map ascii_lower alias) = alias ->
  OD.get alias code_mapping = Some code ->
  normalize_language_code alias = code.
Proof.
  intros Hascii Hne Hfix Hget. unfold normalize_language_code.
  destruct alias as [|c a]; [congruence|]. cbn [truthy negb].
  rewrite (py_lower_ascii _ Hascii), Hfix, Hget. reflexivity.
Qed.

(** Every alias of the table of language names and three-letter codes
    resolves to a language that has a display name: the name of its
    two-letter code, never ["Unknown"]. *)
Theorem get_language_name_alias (alias code : str) :
  OD.get alias code_mapping = Some code ->
  get_language_name alias = get_language_name code /\
  get_language_name alias <> lit "Unknown".
Proof.
  intros Hget.
  assert (Hcode : normalize_language_code code = code) by exact (normalize_mapped _ _ Hget).
  assert (Halias : normalize_language_code alias = code /\
                   OD.get code language_names <> None).
  { revert Hget. unfold code_mapping. cbn [OD.get].
    repeat match goal with
    | |- (if str_eqb ?a ?k then _ else _) = _ -> _ =>
        let E := fresh "E" in
        destruct (str_eqb a k) eqn:E;
        [apply str_eqb_eq in E; subst a; intros [= <-];
         (split; [apply normalize_alias;
                    [repeat constructor | discriminate
                    | vm_compute; reflexivity | vm_compute; reflexivity]
                 | vm_compute; discriminate])
        |clear E]
    end.
    discriminate. }
  destruct Halias as [Halias Hname].
  unfold get_language_name. rewrite Halias, Hcode. split; [reflexivity|].
  revert Hname. clear.
  unfold language_names. cbn [OD.get].
  repeat match goal with
  | |- context [if str_eqb ?a ?k then _ else _] =>
      destruct (str_eqb a k); [intros _; vm_compute; discriminate|]
  end.
  congruence.
Qed.
End LanguageNameFacts.

(** ** The shape of cleaned text *)
Section CleanShape.
Context `{UnicodeDB}.

Lemma clean_with_shape (keep : N -> bool) (t : str) :
  keep SPACE = true ->
  Forall (fun c => keep c = true) (clean_with keep t) /\
  single_spaced false (clean_with keep t) /\
  strip (clean_with keep t) = clean_with keep t.
Proof.
  intros Hsp. unfold clean_with. destruct (negb (truthy t)).
  { split; [constructor | split; [exact I | reflexivity]]. }
  split; [|split].
  - apply strip_Forall, collapse_Forall; [exact Hsp|].
    unfold Re.sub_outside. apply Forall_map, Forall_forall. intros c _. simpl.
    destruct (keep c) eqn:E; [exact E | exact Hsp].
  - apply strip_single_spaced, collapse_single_spaced.
  - apply strip_idem.
Qed.

(** What [clean_special_chars] returns holds only word characters,
    whitespace and the allowed punctuation, its whitespace is single spaces,
    and it neither starts nor ends with whitespace; this holds for both
    variants. *)
Theorem clean_special_chars_shape (t : str) :
  let r1 := TranslateService.clean_special_chars t in
  let r2 := TranslationEvaluator.clean_special_chars t in
  (Forall (fun c => Re.is_word c || isspace c
                    || contains_cp c TranslateService.allowed_special_chars = true) r1 /\
   single_spaced false r1 /\ strip r1 = r1) /\
  (Forall (fun c => Re.is_word c || isspace c
                    || contains_cp c TranslationEvaluator.allowed_special_chars = true) r2 /\
   single_spaced false r2 /\ strip r2 = r2).
Proof.
  split.
  - apply (clean_with_shape
      (fun c => Re.is_word c || isspace c
                || contains_cp c TranslateService.allowed_special_chars)).
    rewrite orb_true_r. reflexivity.
  - apply (clean_with_shape
      (fun c => Re.is_word c || isspace c
                || contains_cp c TranslationEvaluator.allowed_special_chars)).
    rewrite orb_true_r. reflexivity.
Qed.
End CleanShape.

(** ** Learned word mappings *)
Section WordMappingFacts.
Context `{UnicodeDB}.
Import DictionaryManager.

(** The category an item is filed under: its own, stripped, or
    ["custom_terms"] when it has none or a blank one. *)
Definition filed_category (item : WordMapping) : str :=
  strip (match category item with
         | Some c => if str_eqb (strip c) [] then lit "custom_terms" else c
         | None => lit "custom_terms"
         end).

Lemma process_word_mapping_app (l1 l2 : list WordMapping) (lang : str) (st : state) :
  process_word_mapping (l1 ++ l2) lang st
  = process_word_mapping l2 lang (process_word_mapping l1 lang st).
Proof. revert st. induction l1 as [|i l1 IH]; intros st; [reflexivity|]. apply IH. Qed.

(** After [process_word_mapping], the last item of the list is in memory
    with word, translation and category stripped, under ["custom_terms"]
    when it names no category, provided [add_translation] accepts it; an
    earlier item for the same term does not survive it. *)
Theorem process_word_mapping_last (l : list WordMapping) (item : WordMapping)
    (lang : str) (st : state) :
  rejected (strip (word item)) (strip (translation item)) (9 # 10) = false ->
  lookup_term lang (filed_category item) (strip (word item))
    (process_word_mapping (l ++ [item]) lang st)
  = Some (strip (translation item)).
Proof.
  intros Hrej. rewrite process_word_mapping_app. cbn [process_word_mapping].
  fold (filed_category item).
  pose proof (add_translation_dictionaries (strip (word item)) (strip (translation item))
                lang (filed_category item) (9 # 10) (process_word_mapping l lang st)) as Hd.
  rewrite Hrej in Hd.
  pose proof (upsert_lookup (strip (word item)) (strip (translation item)) lang
                (filed_category item) (process_word_mapping l lang st)) as Hu.
  unfold lookup_term in *. rewrite Hd. exact Hu.
Qed.
End WordMappingFacts.

Lemma improve_translation_never_empty_witness :
  let r := TranslationEvaluator.improve_translation (lit "hello") (VStr hello_ko) [] None
             (stub_world [translated []]) in
  chat_calls (snd r) = S (chat_calls (stub_world [translated []])) /\
  match fst r with
  | Some (improved, _) => improved <> []
  | None => deadline (stub_world [translated []])
              (chat_calls (stub_world [translated []])) = true
  end.
Proof.
  apply (improve_translation_never_empty (lit "hello") hello_ko [] None
           (stub_world [translated []])).
  discriminate.
Defined.

Lemma translate_evaluator_non_empty_witness :
  exists t,
    fst (fst (TranslateService.translate_evaluator sample_settings (lit "good morning")
                (VStr (lit "first try")) None best_of_world)) = VStr t /\
    t <> [].
Proof.
  apply (translate_evaluator_non_empty sample_settings (lit "good morning")
           (lit "first try") None best_of_world).
  discriminate.
Defined.

Lemma get_language_name_alias_witness :
  LanguageUtils.get_language_name (lit "korean") = LanguageUtils.get_language_name (lit "ko") /\
  LanguageUtils.get_language_name (lit "korean") <> lit "Unknown".
Proof. apply (get_language_name_alias (lit "korean") (lit "ko")). reflexivity. Defined.

(** The process with the dictionary of names loaded and a backend that
    translates once. *)
Definition names_world : world :=
  {| backend := fun _ => translated hello_ko;
     deadline := fun _ => false;
     chat_calls := 0;
     translation_cache := [];
     DICTIONARY := names_state;
     HISTORY := TranslationHistory.empty;
     _evaluation_history := ∅;
     log := [] |}.

(** With a source language given, a request whose source and target
    languages are equal is answered with the text as it is, and otherwise a
    blank text with the empty string; in both cases nothing of the process
    changes: no dictionary is loaded, no backend call is made, nothing is
    logged, cached or recorded. *)
Theorem translate_short_cut_untouched `{UnicodeDB} (settings : Settings)
    (text source_lang target_lang now : str) (w : world) :
  source_lang <> [] ->
  source_lang = target_lang \/ strip text = [] ->
  ConsistentTranslator.translate settings text (Some source_lang) target_lang now w
  = (Ok (VStr (if str_eqb source_lang target_lang then text else [])), w).
Proof.
  intros Hs Hcut. unfold ConsistentTranslator.translate.
  destruct source_lang as [|c s]; [congruence|].
  destruct (str_eqb (c :: s) target_lang) eqn:E; [reflexivity|].
  destruct Hcut as [Hcut|Hcut].
  - rewrite Hcut, str_eqb_refl in E. discriminate.
  - rewrite Hcut, str_eqb_refl, orb_true_r. reflexivity.
Qed.

Lemma translate_short_cut_untouched_witness :
  ConsistentTranslator.translate sample_settings (lit "  ") (Some (lit "en")) (lit "ko")
    [] names_world
  = (Ok (VStr []), names_world).
Proof.
  apply (translate_short_cut_untouched sample_settings (lit "  ") (lit "en") (lit "ko") []
           names_world).
  - discriminate.
  - right. reflexivity.
Defined.

Definition sara_item : DictionaryManager.WordMapping :=
  {| DictionaryManager.word := lit " Sara ";
     DictionaryManager.translation := sara_ko ++ [SPACE];
     DictionaryManager.category := Some (lit "  ") |}.

Lemma process_word_mapping_last_witness :
  lookup_term (lit "ko") (lit "custom_terms") (lit "Sara")
    (DictionaryManager.process_word_mapping [sara_item] (lit "ko") DictionaryManager.empty)
  = Some sara_ko.
Proof.
  apply (process_word_mapping_last [] sara_item (lit "ko") DictionaryManager.empty).
  vm_compute. reflexivity.
Defined.

(** ** References and substitution *)
Section ReferenceFacts.
Context `{UnicodeDB}.
Import DictionaryManager.

Lemma filter_nil_false {A} (p : A -> bool) (l : list A) (x : A) :
  List.filter p l = [] -> In x l -> p x = false.
Proof.
  induction l as [|a l IH]; simpl; [tauto|].
  destruct (p a) eqn:E; [discriminate|]. intros Hl [<-|Hx]; auto.
Qed.

Lemma substitute_entries_no_match (text : str) (entries : OD.t str) :
  (forall source translation, In (source, translation) entries ->
     (len source >? 2)%Z && Re.search_word source None text = false) ->
  substitute_entries entries (text, false) = Ok (text, false).
Proof.
  induction entries as [|[source translation] entries IH]; intros Hno; [reflexivity|].
  cbn [substitute_entries fst]. rewrite (Hno source translation (or_introl eq_refl)).
  apply IH. intros s t Hin. apply (Hno s t). right. exact Hin.
Qed.

Lemma substitute_no_match (text : str) (d : dictionary) (categories : list str) :
  (forall category entries source translation,
     In category categories -> OD.get category d = Some entries ->
     In (source, translation) entries ->
     (len source >? 2)%Z && Re.search_word source None text = false) ->
  substitute d categories (text, false) = Ok (text, false).
Proof.
  induction categories as [|c cs IH]; intros Hno; [reflexivity|].
  cbn [substitute].
  assert (Hrest : substitute d cs (text, false) = Ok (text, false)).
  { apply IH. intros c' e s t Hc. apply Hno. right. exact Hc. }
  destruct (OD.get c d) as [entries|] eqn:Hget; [|exact Hrest].
  rewrite (substitute_entries_no_match text entries); [exact Hrest|].
  intros s t Hin. exact (Hno c entries s t (or_introl eq_refl) Hget Hin).
Qed.

Lemma references_of_nil (text : str) (d : dictionary)
    (category : str) (entries : OD.t str) (source translation : str) :
  references_of text d = [] ->
  In category _priority_categories -> OD.get category d = Some entries ->
  In (source, translation) entries ->
  (len source >? 2)%Z && Re.search_word source None text = false.
Proof.
  unfold references_of. intros Hnil Hc Hget Hin.
  assert (Hcat : forall (f : str -> list (str * str)) (l : list str),
            List.concat (List.map f l) = [] -> forall c, In c l -> f c = []).
  { clear. intros f l. induction l as [|a l IH]; simpl; [tauto|].
    intros Hl c [<-|Hc']; apply app_eq_nil in Hl as [Ha Hl]; auto. }
  pose proof (Hcat _ _ Hnil category Hc) as Hf. cbv beta in Hf. rewrite Hget in Hf.
  pose proof (filter_nil_false _ _ (source, translation) Hf Hin) as Hp. cbv beta iota in Hp.
  destruct (len source >? 2)%Z; [|reflexivity]. cbn [andb] in *.
  apply orb_false_elim in Hp as [Hp _]. exact Hp.
Qed.

(** A text for which the loaded dictionary yields no prompt reference and no
    exact match has no dictionary translation either: [get_translation]
    answers [None] and never hands the text back untranslated. *)
Theorem no_reference_no_translation (text lang : str) (st : state) (d : dictionary) :
  _dictionaries st !! lang = Some d ->
  truthy (strip text) = true ->
  fst (get_prompt_references text lang st) = Ok [] ->
  exact_match text d _priority_categories = None ->
  fst (get_translation text lang st) = Ok None.
Proof.
  intros Hm Hblank Hrefs Hexact.
  unfold get_prompt_references, get_translation, get_dictionary in *. rewrite Hm in *.
  destruct text as [|c text]; [discriminate|]. cbn [truthy negb orb] in *.
  rewrite Hblank in *. cbn [negb fst] in *.
  destruct (_ && _); [reflexivity|].
  destruct d as [|cat d']; [reflexivity|]. rewrite Hexact. cbn [fst].
  injection Hrefs as Hrefs.
  unfold partial_match.
  rewrite substitute_no_match; [reflexivity|].
  intros category entries source translation Hc Hget Hin.
  exact (references_of_nil _ _ _ _ _ _ Hrefs Hc Hget Hin).
Qed.
End ReferenceFacts.

Lemma no_reference_no_translation_witness :
  fst (DictionaryManager.get_translation (lit "good morning") (lit "ko") names_state)
  = Ok None.
Proof.
  apply (no_reference_no_translation (lit "good morning") (lit "ko") names_state
           names_dictionary);
    vm_compute; reflexivity.
Defined.

(** ** Replies without a translation *)
Section ReplyFacts.
Context `{UnicodeDB}.
Variable settings : Settings.
Import TranslateService.

(** With a parsed reply as the current translation no attempt gets as far
    as the backend: the loop leaves its candidates as they are. *)
Lemma improvement_loop_dict (text : str) (fuel : nat) :
  forall (a : Z) (ls : loop_state) (w : world) (p : payload),
  current_translation ls = VDict p ->
  fst (improvement_loop settings text fuel a ls w) = ls /\
  chat_calls (snd (improvement_loop settings text fuel a ls w)) = chat_calls w.
Proof.
  induction fuel as [|fuel IH]; intros a ls w p Hcur; [split; reflexivity|].
  cbn [improvement_loop]. rewrite Hcur.
  cbn [TranslationEvaluator.improve_translation].
  destruct (IH (a + 1)%Z ls (emit (PrintAttempt (a + 1)) w) p Hcur) as [H1 H2].
  split; [exact H1 | exact H2].
Qed.

Lemma translate_evaluator_dict (text : str) (p : payload)
    (wm : option (list DictionaryManager.WordMapping)) (w : world) :
  fst (translate_evaluator settings text (VDict p) wm w) = (VDict p, wm).
Proof.
  unfold translate_evaluator.
  destruct (TranslationEvaluator.evaluate_translation text (VDict p) w)
    as [[[s fb]|] w1]; [|reflexivity].
  destruct (s <? QUALITY_THRESHOLD settings)%Z; [|reflexivity].
  match goal with
  | |- context [improvement_loop settings text ?f ?a' ?ls' ?w'] =>
      destruct (improvement_loop_dict text f a' ls' w' p eq_refl) as [Hls _];
      destruct (improvement_loop settings text f a' ls' w') as [ls1 w2]
  end.
  cbn [fst] in Hls. subst ls1. reflexivity.
Qed.

(** A reply without a translation does not fail the request unless the
    parsed reply is the empty dictionary: of any other reply
    [translate_text] returns the parsed dictionary itself in the place of
    the translated text, records it in the history and, with the cache on,
    caches it.  Only the empty dictionary gives the 500 response, with cache
    and history untouched. *)
Theorem translate_text_reply_without_translation (source_lang : option str)
    (target_lang text now : str) (w : world) (p : payload) :
  ENABLE_DICTIONARY settings = false ->
  negb (truthy text) || str_eqb (strip text) [] = false ->
  OD.get (cache_key (effective_source source_lang) target_lang text)
    (translation_cache w) = None ->
  backend w (chat_calls w) = Content p ->
  p_translation p = [] ->
  let r := translate_text settings source_lang target_lang text now w in
  if (dict_len p =? 0)%Z
  then fst r = Raise (HTTPException 500) /\
       translation_cache (snd r) = translation_cache w /\
       HISTORY (snd r) = HISTORY w
  else fst r = Ok (VDict p) /\
       (ENABLE_CACHE settings = true ->
        OD.get (cache_key (effective_source source_lang) target_lang text)
          (translation_cache (snd r)) = Some (VDict p)) /\
       TranslationHistory.translated_text <$>
         last (TranslationHistory.get_history (effective_source source_lang) target_lang
                 (HISTORY (snd r)))
       = Some (VDict p).
Proof.
  intros Hdict Hblank Hmiss Hreply Hempty r. subst r.
  unfold translate_text. fold (effective_source source_lang).
  rewrite Hblank, Hmiss, Hdict.
  replace (if ENABLE_CACHE settings then None else None) with (@None pyval)
    by (destruct (ENABLE_CACHE settings); reflexivity).
  unfold translate_with_model. rewrite Hdict. unfold chat. cbn [andb].
  rewrite Hreply, Hempty. cbn [truthy vtruthy].
  destruct (dict_len p =? 0)%Z eqn:Elen.
  - apply Z.eqb_eq in Elen. rewrite Elen. change (0 <? 0)%Z with false.
    cbn [negb fst snd]. repeat split; reflexivity.
  - apply Z.eqb_neq in Elen.
    assert (Hpos : (0 <? dict_len p)%Z = true).
    { apply Z.ltb_lt. unfold dict_len in *.
      destruct (truthy (p_translation p)), (p_word_mapping p), (p_score p), (p_feedback p);
        lia. }
    rewrite Hpos. cbn [negb].
    set (w1 := set_chat_calls (S (chat_calls w)) w).
    set (ev := if _ && _ && _ && _ then _ else _).
    assert (Hev : fst ev = (VDict p, p_word_mapping p) /\ same_stores w1 (snd ev)).
    { subst ev. destruct (_ && _ && _ && _).
      - split; [apply translate_evaluator_dict | apply translate_evaluator_same_stores].
      - split; [reflexivity | apply same_stores_refl]. }
    destruct ev as [[t wm] w2]. cbn [fst snd] in Hev.
    destruct Hev as [[= -> ->] (Hc & Hh & _)].
    cbn [translation_cache HISTORY w1 set_chat_calls] in Hc, Hh.
    split; [destruct (p_word_mapping p); reflexivity|].
    split.
    + intros Hon.
      destruct (p_word_mapping p); cbn [fst snd translation_cache set_dictionary set_cache
        set_history emit]; rewrite Hc;
        apply (store_fresh_key_readable settings Hon); exact Hmiss.
    + destruct (p_word_mapping p);
        cbn [fst snd HISTORY set_dictionary set_cache set_history emit];
        rewrite Hh, add_history_last; reflexivity.
Qed.
End ReplyFacts.

(** A reply whose translation is empty, as [{"translation": "",
    "word_mapping": []}]. *)
Definition blank_payload : payload :=
  {| p_translation := []; p_word_mapping := Some []; p_score := ScoreAbsent;
     p_feedback := None; p_other_keys := 1 |}.

(** No dictionary and no evaluation. *)
Definition plain_settings : Settings :=
  {| ENABLE_CACHE := true; ENABLE_DICTIONARY := false; ENABLE_EVALUATION := false;
     QUALITY_THRESHOLD := 90; MAX_IMPROVEMENT_ATTEMPTS := 3;
     MIN_TEXT_LENGTH_FOR_EVALUATION := 8; MAX_TEXT_LENGTH_FOR_EVALUATION := 1000 |}.

Lemma translate_text_reply_without_translation_witness :
  let w := stub_world [Content blank_payload] in
  let r := TranslateService.translate_text plain_settings (Some (lit "en")) (lit "ko")
             (lit "hello") [] w in
  fst r = Ok (VDict blank_payload) /\
  (ENABLE_CACHE plain_settings = true ->
   OD.get (lit "en:ko:hello") (translation_cache (snd r)) = Some (VDict blank_payload)) /\
  TranslationHistory.translated_text <$>
    last (TranslationHistory.get_history (lit "en") (lit "ko") (HISTORY (snd r)))
  = Some (VDict blank_payload).
Proof.
  apply (translate_text_reply_without_translation plain_settings (Some (lit "en"))
           (lit "ko") (lit "hello") [] (stub_world [Content blank_payload]) blank_payload);
    reflexivity.
Defined.

(** The empty dictionary is the one reply that gives the 500 response. *)
Example translate_text_empty_reply :
  fst (TranslateService.translate_text plain_settings (Some (lit "en")) (lit "ko")
         (lit "hello") []
         (stub_world [Content {| p_translation := []; p_word_mapping := None;
                                 p_score := ScoreAbsent; p_feedback := None;
                                 p_other_keys := 0 |}]))
  = Raise (HTTPException 500).
Proof. vm_compute. reflexivity. Qed.
